(** * examples/training/train_new_entity_type.py

    A shallow embedding of the example script that teaches a blank pipeline
    the entity type ANIMAL, and the properties its description states.

    The script is glue code over four foreign interfaces: the NLP library
    (pipeline construction, training, serialisation), Python's [random]
    module, [pathlib], and the argument parser [plac] of the entry point.
    They are gathered in the record [Library]; the
    script is embedded once, for every library, as a program of the monad
    [M] (state, exceptions, and an event log of the calls that leave the
    script).

    Python passes [nlp] and [train_data] by reference.  Each denotes one
    object during a run: the [Language] object bound to [nlp] in [main] and
    the list bound to [train_data]; both live in the [World], so that a
    mutation made by a callee is seen by its caller.  The parameters [nlp]
    and [train_data] of [train_ner] and [get_gold_parses] are these two
    objects.

    A call into the NLP library answers from the object it is made on and
    its arguments, and may change that object; [load], [to_disk] and the
    methods of [Path] also see the file system.  The generator behind
    [random] is read and written by [random.seed] and [random.shuffle]
    only.  [random.shuffle] is CPython's: a swap with a drawn index for
    every position, from the last one down. *)

From Stdlib Require Import ZArith QArith.
From stdpp Require Import base list strings gmap.

Local Open Scope string_scope.
Local Open Scope list_scope.
Local Open Scope nat_scope.

(** ** Training examples *)

(** [(start, end, label)]: a character-offset entity span. *)
Abbreviation Span := (Z * Z * string)%type.

(** [(raw_text, entity_offsets)] *)
Abbreviation Example := (string * list Span)%type.

(** ** The foreign interfaces *)

(** What a foreign call answers: a value, or an exception. *)
Inductive answer (E A : Type) : Type :=
| Returns (a : A)
| Raises (e : E).
Arguments Returns {E A} a.
Arguments Raises {E A} e.

(** The attributes of a [Language] object that the script reads and writes:
    [nlp.vocab], [nlp.pipeline] (a Python list) and [nlp.meta] (a dict). *)
Record Language (Vocab Component : Type) : Type := MkLanguage {
  vocab : Vocab;
  pipeline : list Component;
  meta : gmap string string;
}.
Arguments MkLanguage {Vocab Component} vocab pipeline meta.
Arguments vocab {Vocab Component} l.
Arguments pipeline {Vocab Component} l.
Arguments meta {Vocab Component} l.

(** What [plac.call(main)] makes of the command line.  The parser is built
    from the signature of [main]: it calls [main] with a value for each of
    its two parameters, [None] for an [output_directory] that was not
    given, or it leaves through [SystemExit] (usage on [-h], an error on
    arguments it cannot bind) without calling [main].  What the parser
    itself prints is not part of the log. *)
Inductive plac_answer : Type :=
| PlacCall (model_name : string) (output_directory : option string)
| PlacExit (code : Z).

Record Library : Type := MkLibrary {
  (* spaCy objects *)
  Vocab : Type;
  Component : Type;
  Doc : Type;
  Gold : Type;
  Optimizer : Type;
  Loss : Type;
  Ent : Type;
  (* pathlib and the file system *)
  Path : Type;
  FS : Type;
  (* the state of the module [random] *)
  Rng : Type;
  (* what the libraries raise: exceptions in the ordinary sense;
     [StopIteration], to which the iterator protocol gives a meaning of
     its own inside a generator, is not among them *)
  LibExn : Type;

  (* spacy *)
  blank : string -> answer LibExn (Language Vocab Component);
  load : Path -> FS -> answer LibExn (Language Vocab Component);
  TokenVectorEncoder : Vocab -> answer LibExn Component;
  NeuralEntityRecognizer : Vocab -> answer LibExn Component;
  add_label : Component -> string -> answer LibExn Component;
  begin_training :
    Language Vocab Component ->
    answer LibExn (Optimizer * Language Vocab Component);
  make_doc :
    Language Vocab Component -> string ->
    answer LibExn (Doc * Language Vocab Component);
  GoldParse : Doc -> list Span -> answer LibExn Gold;
  update :
    Language Vocab Component ->
    list Doc -> list Gold -> gmap string Loss -> Optimizer -> bool -> Q ->
    answer LibExn (gmap string Loss * Optimizer * Language Vocab Component);
  call :
    Language Vocab Component -> string ->
    answer LibExn (Doc * Language Vocab Component);
  ents : Doc -> list Ent;
  label_ : Ent -> string;
  ent_text : Ent -> string;
  to_disk : Language Vocab Component -> Path -> FS -> answer LibExn FS;

  (* pathlib *)
  mkPath : string -> Path;
  str_path : Path -> string;
  path_exists : Path -> FS -> answer LibExn bool;
  path_mkdir : Path -> FS -> answer LibExn FS;

  (* random *)
  seed : Z -> Rng;
  randbelow : Rng -> nat -> nat * Rng;

  (* plac *)
  plac_parse : list string -> plac_answer;
}.

Definition Nlp (L : Library) : Type := Language (Vocab L) (Component L).
Definition Losses (L : Library) : Type := gmap string (Loss L).

(** ** Values, exceptions, events *)

(** The values that reach the parameter [output_dir] of [train_ner]:
    [None], a [Path] (which [main] passes), or a string left unconverted by
    another caller. *)
Inductive pyarg (L : Library) : Type :=
| PNone
| PStr (s : string)
| PPath (p : Path L).
Arguments PNone {L}.
Arguments PStr {L} s.
Arguments PPath {L} p.

(** Python's truth value: [None] and the empty string are falsy; a [Path]
    defines neither [__bool__] nor [__len__] and is always truthy. *)
Definition truthy {L} (v : pyarg L) : bool :=
  match v with
  | PNone => false
  | PStr s => negb (String.eqb s "")
  | PPath _ => true
  end.

Inductive exn (L : Library) : Type :=
| LibError (e : LibExn L)          (* raised inside a library *)
| AttributeError (attr : string)   (* the interpreter: no such attribute *)
| IndexError                       (* the interpreter: list index out of range *)
| ValueError                       (* the interpreter: nothing to unpack *)
| SystemExit (code : Z).           (* the argument parser *)
Arguments LibError {L} e.
Arguments AttributeError {L} attr.
Arguments IndexError {L}.
Arguments ValueError {L}.
Arguments SystemExit {L} code.

(** Which [Language] object a prediction is run on. *)
Inductive which_nlp : Type := Trained | Reloaded.

(** The calls that leave the script, in the order they are made. *)
Inductive Event (L : Library) : Type :=
| EPrint (s : string)
| EPrintLosses (losses : Losses L)
| EBlank (model_name : string)
| ETokenVectorEncoder
| ENeuralEntityRecognizer
| EAddLabel (label : string)
| ESeed (a : Z)
| EShuffle (order : list Example)
| EBeginTraining (nlp : Nlp L)
| EMakeDoc (raw_text : string)
| EGoldParse (doc : Doc L) (entities : list Span)
| EUpdate (docs : list (Doc L)) (golds : list (Gold L)) (losses : Losses L)
          (sgd : Optimizer L) (update_shared : bool) (drop : Q)
| EExists (p : Path L)
| EMkdir (p : Path L)
| EToDisk (p : Path L)
| ELoad (p : Path L)
| ECall (on : which_nlp) (txt : string)
| ERaise (e : exn L).
Arguments EPrint {L} s.
Arguments EPrintLosses {L} losses.
Arguments EBlank {L} model_name.
Arguments ETokenVectorEncoder {L}.
Arguments ENeuralEntityRecognizer {L}.
Arguments EAddLabel {L} label.
Arguments ESeed {L} a.
Arguments EShuffle {L} order.
Arguments EBeginTraining {L} nlp.
Arguments EMakeDoc {L} raw_text.
Arguments EGoldParse {L} doc entities.
Arguments EUpdate {L} docs golds losses sgd update_shared drop.
Arguments EExists {L} p.
Arguments EMkdir {L} p.
Arguments EToDisk {L} p.
Arguments ELoad {L} p.
Arguments ECall {L} on txt.
Arguments ERaise {L} e.

(** ** The world and the monad *)

Record World (L : Library) : Type := MkWorld {
  w_random : Rng L;               (* the generator behind [random] *)
  w_nlp : Nlp L;                  (* the object bound to [nlp] *)
  w_train_data : list Example;    (* the list bound to [train_data] *)
  w_fs : FS L;                    (* the file system *)
  w_log : list (Event L);         (* the calls made so far *)
}.
Arguments MkWorld {L} w_random w_nlp w_train_data w_fs w_log.
Arguments w_random {L} w.
Arguments w_nlp {L} w.
Arguments w_train_data {L} w.
Arguments w_fs {L} w.
Arguments w_log {L} w.

(** How a run ends.  [OutOfFuel] is the model's own: the loop over a
    generator is bounded by a counter, and [train_ner_total] shows that the
    bound the script is given is never reached. *)
Inductive outcome (L : Library) (A : Type) : Type :=
| Ok (a : A)
| Raise (e : exn L)
| OutOfFuel.
Arguments Ok {L A} a.
Arguments Raise {L A} e.
Arguments OutOfFuel {L A}.

(** State persists when an exception is raised, as in Python. *)
Definition M (L : Library) (A : Type) : Type := World L -> outcome L A * World L.

Definition ret {L A} (a : A) : M L A := fun w => (Ok a, w).

Definition bind {L A B} (m : M L A) (k : A -> M L B) : M L B :=
  fun w =>
    match m w with
    | (Ok a, w1) => k a w1
    | (Raise e, w1) => (Raise e, w1)
    | (OutOfFuel, w1) => (OutOfFuel, w1)
    end.

Declare Scope script_scope.
Delimit Scope script_scope with script.
Bind Scope script_scope with M.
Notation "x <- m ;; k" := (bind m (fun x => k))
  (at level 100, m at next level, right associativity) : script_scope.
Notation "m ;; k" := (bind m (fun _ => k))
  (at level 100, right associativity) : script_scope.
Local Open Scope script_scope.

Section Script.
Context {L : Library}.

Definition emit (ev : Event L) : M L unit :=
  fun w => (Ok tt, MkWorld (w_random w) (w_nlp w) (w_train_data w) (w_fs w)
                           (w_log w ++ [ev])).

(** An exception leaves the raising call; the log records it there. *)
Definition raise {A} (e : exn L) : M L A :=
  fun w => (Raise e, MkWorld (w_random w) (w_nlp w) (w_train_data w) (w_fs w)
                             (w_log w ++ [ERaise e])).

Definition out_of_fuel {A} : M L A := fun w => (OutOfFuel, w).

(** A library call: logged, then answered. *)
Definition lib {A} (ev : Event L) (a : answer (LibExn L) A) : M L A :=
  emit ev ;;
  match a with
  | Returns v => ret v
  | Raises e => raise (LibError e)
  end.

Definition get_nlp : M L (Nlp L) := fun w => (Ok (w_nlp w), w).
Definition set_nlp (nlp : Nlp L) : M L unit :=
  fun w => (Ok tt, MkWorld (w_random w) nlp (w_train_data w) (w_fs w) (w_log w)).
Definition get_train_data : M L (list Example) := fun w => (Ok (w_train_data w), w).
Definition set_train_data (x : list Example) : M L unit :=
  fun w => (Ok tt, MkWorld (w_random w) (w_nlp w) x (w_fs w) (w_log w)).
Definition get_fs : M L (FS L) := fun w => (Ok (w_fs w), w).
Definition set_fs (fs : FS L) : M L unit :=
  fun w => (Ok tt, MkWorld (w_random w) (w_nlp w) (w_train_data w) fs (w_log w)).
Definition get_random : M L (Rng L) := fun w => (Ok (w_random w), w).
Definition set_random (r : Rng L) : M L unit :=
  fun w => (Ok tt, MkWorld r (w_nlp w) (w_train_data w) (w_fs w) (w_log w)).

(** [print(a, b)]: the arguments separated by a space. *)
Definition print (s : string) : M L unit := emit (EPrint s).

(** ** [random] *)

(** [random.seed(a)] *)
Definition random_seed (a : Z) : M L unit :=
  emit (ESeed a) ;; set_random (seed L a).

Definition random_randbelow (n : nat) : M L nat :=
  r <- get_random ;;
  let jr := randbelow L r n in
  set_random (snd jr) ;; ret (fst jr).

(** [x[i], x[j] = x[j], x[i]] on the list [train_data]: the right-hand side
    is read first, [x[j]] then [x[i]]; an index past the end raises. *)
Definition swap_items (i j : nat) : M L unit :=
  x <- get_train_data ;;
  match x !! j with
  | None => raise IndexError
  | Some xj =>
      match x !! i with
      | None => raise IndexError
      | Some xi => set_train_data (<[j:=xi]> (<[i:=xj]> x))
      end
  end.

(** [for i in reversed(range(1, len(x))): j = randbelow(i+1); swap];
    [shuffle_down n] runs the indices [n, n-1, ..., 1]. *)
Fixpoint shuffle_down (i : nat) : M L unit :=
  match i with
  | O => ret tt
  | S i' =>
      j <- random_randbelow (S i) ;;
      swap_items i j ;;
      shuffle_down i'
  end.

(** [random.shuffle(train_data)]: in place, on the caller's list. *)
Definition random_shuffle : M L unit :=
  x <- get_train_data ;;
  shuffle_down (length x - 1) ;;
  x' <- get_train_data ;;
  emit (EShuffle x').

(** ** Generators *)

(** A suspended generator is its frame [F]; resuming it runs to the next
    [yield] and answers the value, or [None] when the body has returned. *)
Definition generator (F A : Type) : Type := F -> M L (option A * F).

(** The frame of [get_gold_parses]: not started, inside the [for] at an
    index of [train_data], or returned. *)
Inductive gold_frame : Type :=
| GStart
| GFor (i : nat)
| GDone.

(** The [for] of [get_gold_parses], resumed at index [i].  The list iterator
    reads the shared list at its own index on every step. *)
Definition gold_for (tokenizer : string -> M L (Doc L)) (i : nat)
  : M L (option (Doc L * Gold L) * gold_frame) :=
  x <- get_train_data ;;
  match x !! i with
  | None => ret (None, GDone)
  | Some (raw_text, entity_offsets) =>
      doc <- tokenizer raw_text ;;
      gold <- lib (EGoldParse doc entity_offsets) (GoldParse L doc entity_offsets) ;;
      ret (Some (doc, gold), GFor (S i))
  end.

(** [get_gold_parses(tokenizer, train_data)]: nothing runs until the
    generator is first resumed; then the list is shuffled and the [for]
    begins. *)
Definition get_gold_parses (tokenizer : string -> M L (Doc L))
  : generator gold_frame (Doc L * Gold L) :=
  fun frame =>
    match frame with
    | GStart => random_shuffle ;; gold_for tokenizer 0
    | GFor i => gold_for tokenizer i
    | GDone => ret (None, GDone)
    end.

(** Up to [n] items of a generator, in order. *)
Fixpoint take_items {F A} (n : nat) (items : generator F A) (frame : F)
  : M L (list A * F) :=
  match n with
  | O => ret ([], frame)
  | S n' =>
      r <- items frame ;;
      match r with
      | (None, frame') => ret ([], frame')
      | (Some a, frame') =>
          r' <- take_items n' items frame' ;;
          ret (a :: fst r', snd r')
      end
  end.

(** Modelled from the spec: [spacy.gold.minibatch] is imported by the
    script and is not among the sources.  The spec has the example set
    presented "in small batches"; the call site passes [size=3].  The
    generator takes up to [size] of the remaining items for each batch and
    returns at the first empty batch. *)
Definition minibatch {F A} (items : generator F A) (size : nat)
  : generator F (list A) :=
  fun frame =>
    r <- take_items size items frame ;;
    match r with
    | ([], frame') => ret (None, frame')
    | (batch, frame') => ret (Some batch, frame')
    end.

(** [for x in gen: s = body x s], bounded by [fuel] resumptions. *)
Fixpoint for_each {F A S} (fuel : nat) (gen : generator F A)
    (body : A -> S -> M L S) (frame : F) (s : S) : M L S :=
  match fuel with
  | O => out_of_fuel
  | S fuel' =>
      r <- gen frame ;;
      match r with
      | (None, _) => ret s
      | (Some a, frame') =>
          s' <- body a s ;;
          for_each fuel' gen body frame' s'
      end
  end.

(** [for itn in range(n): s = body s] *)
Fixpoint for_range {S} (n : nat) (body : S -> M L S) (s : S) : M L S :=
  match n with
  | O => ret s
  | S n' => s' <- body s ;; for_range n' body s'
  end.

(** [for x in xs: body x] over a list that the body leaves alone. *)
Fixpoint for_list {A} (xs : list A) (body : A -> M L unit) : M L unit :=
  match xs with
  | [] => ret tt
  | x :: xs' => body x ;; for_list xs' body
  end.

(** ** The script *)

(** [nlp.make_doc], the bound method handed to [get_gold_parses]. *)
Definition nlp_make_doc (raw_text : string) : M L (Doc L) :=
  nlp <- get_nlp ;;
  r <- lib (EMakeDoc raw_text) (make_doc L nlp raw_text) ;;
  set_nlp (snd r) ;; ret (fst r).

(** [nlp.update(docs, golds, losses=losses, sgd=optimizer,
                update_shared=True, drop=0.35)]; the dict [losses] and the
    optimizer are updated in place. *)
Definition nlp_update (docs : list (Doc L)) (golds : list (Gold L))
    (losses : Losses L) (sgd : Optimizer L) (update_shared : bool) (drop : Q)
  : M L (Losses L * Optimizer L) :=
  nlp <- get_nlp ;;
  r <- lib (EUpdate docs golds losses sgd update_shared drop)
           (update L nlp docs golds losses sgd update_shared drop) ;;
  set_nlp (snd r) ;; ret (fst r).

(** The body of [for batch in minibatch(...)]: the batch is unzipped into
    [docs] and [golds] (which needs a first pair), then [nlp.update]. *)
Definition train_batch (batch : list (Doc L * Gold L))
    (st : Losses L * Optimizer L) : M L (Losses L * Optimizer L) :=
  match batch with
  | [] => raise ValueError
  | _ =>
      let docs := map fst batch in
      let golds := map snd batch in
      nlp_update docs golds (fst st) (snd st) true (35 # 100)
  end.

(** The body of [for itn in range(50)].  The inner [for] resumes its
    generator once per batch and once more to find it exhausted: at most
    one more time than there are examples. *)
Definition train_epoch (optimizer : Optimizer L) : M L (Optimizer L) :=
  let losses : Losses L := ∅ in
  x <- get_train_data ;;
  st <- for_each (S (length x))
          (minibatch (get_gold_parses nlp_make_doc) 3)
          train_batch GStart (losses, optimizer) ;;
  emit (EPrintLosses (fst st)) ;;
  ret (snd st).

Definition set_meta (k v : string) : M L unit :=
  nlp <- get_nlp ;;
  set_nlp (MkLanguage (vocab nlp) (pipeline nlp) (<[k:=v]> (meta nlp))).

(** The end of [train_ner]:
    [if not output_dir: return], [elif not output_dir.exists():
    output_dir.mkdir()], then [nlp.to_disk(output_dir)].  A truthy value
    that is no [Path] has no method [exists]. *)
Definition save_model (output_dir : pyarg L) : M L unit :=
  if negb (truthy output_dir) then ret tt
  else
    match output_dir with
    | PPath p =>
        fs <- get_fs ;;
        e <- lib (EExists p) (path_exists L p fs) ;;
        (if negb e
         then fs <- get_fs ;;
              fs' <- lib (EMkdir p) (path_mkdir L p fs) ;;
              set_fs fs'
         else ret tt) ;;
        nlp <- get_nlp ;;
        fs <- get_fs ;;
        fs' <- lib (EToDisk p) (to_disk L nlp p fs) ;;
        set_fs fs'
    | _ => raise (AttributeError "exists")
    end.

(** [train_ner(nlp, train_data, output_dir)].  The argument of
    [begin_training] is the constant [lambda: []]. *)
Definition train_ner (output_dir : pyarg L) : M L unit :=
  random_seed 0 ;;
  nlp <- get_nlp ;;
  r <- lib (EBeginTraining nlp) (begin_training L nlp) ;;
  set_nlp (snd r) ;;
  let optimizer := fst r in
  set_meta "name" "en_ent_animal" ;;
  for_range 50 train_epoch optimizer ;;
  save_model output_dir.

(** The list literal of [main]. *)
Definition main_train_data : list Example :=
  [ ("Horses are too tall and they pretend to care about your feelings",
     [(0, 6, "ANIMAL")]%Z);
    ("Do they bite?",
     []);
    ("horses are too tall and they pretend to care about your feelings",
     [(0, 6, "ANIMAL")]%Z);
    ("horses pretend to care about your feelings",
     [(0, 6, "ANIMAL")]%Z);
    ("they pretend to care about your feelings, those horses",
     [(48, 54, "ANIMAL")]%Z);
    ("horses?",
     [(0, 6, "ANIMAL")]%Z) ].

(** [nlp.pipeline.append(component)] *)
Definition pipeline_append (c : Component L) : M L unit :=
  nlp <- get_nlp ;;
  set_nlp (MkLanguage (vocab nlp) (pipeline nlp ++ [c]) (meta nlp)).

(** [nlp.pipeline[-1].add_label(label)]: the last component is changed in
    place; an empty list has no last element. *)
Definition pipeline_last_add_label (label : string) : M L unit :=
  nlp <- get_nlp ;;
  match last (pipeline nlp) with
  | None => raise IndexError
  | Some c =>
      c' <- lib (EAddLabel label) (add_label L c label) ;;
      nlp <- get_nlp ;;
      set_nlp (MkLanguage (vocab nlp)
                 (<[length (pipeline nlp) - 1 := c']> (pipeline nlp))
                 (meta nlp))
  end.

Definition print_ents (doc : Doc L) : M L unit :=
  for_list (ents L doc)
    (fun ent => print (label_ L ent +:+ " " +:+ ent_text L ent)).

(** The end of [main], under the comment "Test that the entity is
    recognized": a prediction with the trained pipeline and, if there is an
    output directory, one with the pipeline loaded from it. *)
Definition test_entity (output_directory : option (Path L)) : M L unit :=
  let text := "Do you like horses?" in
  print "Ents in 'Do you like horses?':" ;;
  nlp <- get_nlp ;;
  r <- lib (ECall Trained text) (call L nlp text) ;;
  set_nlp (snd r) ;;
  print_ents (fst r) ;;
  match output_directory with
  | Some p =>
      print ("Loading from " +:+ str_path L p) ;;
      fs <- get_fs ;;
      nlp2 <- lib (ELoad p) (load L p fs) ;;
      r2 <- lib (ECall Reloaded "Do you like horses?")
                (call L nlp2 "Do you like horses?") ;;
      print_ents (fst r2)
  | None => ret tt
  end.

(** [main(model_name, output_directory=None)] *)
Definition main (model_name : string) (output_directory : option string)
  : M L unit :=
  print ("Creating initial model " +:+ model_name) ;;
  nlp <- lib (EBlank model_name) (blank L model_name) ;;
  set_nlp nlp ;;
  let output_directory : option (Path L) :=
    match output_directory with
    | Some s => Some (mkPath L s)
    | None => None
    end in
  set_train_data main_train_data ;;
  nlp <- get_nlp ;;
  tve <- lib ETokenVectorEncoder (TokenVectorEncoder L (vocab nlp)) ;;
  pipeline_append tve ;;
  nlp <- get_nlp ;;
  ner <- lib ENeuralEntityRecognizer (NeuralEntityRecognizer L (vocab nlp)) ;;
  pipeline_append ner ;;
  pipeline_last_add_label "ANIMAL" ;;
  train_ner (match output_directory with
             | Some p => PPath p
             | None => PNone
             end) ;;
  test_entity output_directory.



End Script.

(** ** Vocabulary of the statements *)

Section Statements.
Context {L : Library}.

(** The events a run from [w] adds to the log. *)
Definition events_of {A} (m : M L A) (w : World L) : list (Event L) :=
  drop (length (w_log w)) (w_log (snd (m w))).

(** No exception was raised during these events. *)
Definition quiet (evs : list (Event L)) : Prop := ∀ e, ERaise e ∉ evs.

(** [m] catches nothing: a run only adds to the log; it ends by returning
    or by raising; if an exception is raised the run ends there and with
    that exception, and a run that returns has seen none. *)
Definition propagates {A} (m : M L A) : Prop :=
  ∀ w, ∃ evs,
    w_log (snd (m w)) = w_log w ++ evs ∧
    match fst (m w) with
    | Ok _ => quiet evs
    | Raise e => ∃ pre, evs = pre ++ [ERaise e] ∧ quiet pre
    | OutOfFuel => False
    end.

(** [m] neither reads nor writes the file system, and only adds to the log:
    what it does and what it logs depend on the generator, the pipeline and
    the training data alone. *)
Definition offline {A} (m : M L A) : Prop :=
  ∀ w, ∃ evs,
    ∀ fs lg,
      m (MkWorld (w_random w) (w_nlp w) (w_train_data w) fs lg)
      = (fst (m w),
         MkWorld (w_random (snd (m w))) (w_nlp (snd (m w)))
                 (w_train_data (snd (m w))) fs (lg ++ evs)).

(** [m] reads and writes the generator and the training data only, and only
    adds to the log. *)
Definition data_only {A} (m : M L A) : Prop :=
  ∀ w, ∃ evs,
    ∀ nlp fs lg,
      m (MkWorld (w_random w) nlp (w_train_data w) fs lg)
      = (fst (m w),
         MkWorld (w_random (snd (m w))) nlp (w_train_data (snd (m w))) fs
                 (lg ++ evs)).

(** The events of the training loop. *)
Definition training_event (ev : Event L) : bool :=
  match ev with
  | EShuffle _ | EMakeDoc _ | EGoldParse _ _ | EUpdate _ _ _ _ _ _
  | EPrintLosses _ => true
  | _ => false
  end.

(** The training schedule: the shuffled orders and the batches shown to
    [nlp.update]. *)
Definition schedule_event (ev : Event L) : bool :=
  match ev with
  | EShuffle _ | EUpdate _ _ _ _ _ _ => true
  | _ => false
  end.

Definition schedule (evs : list (Event L)) : list (Event L) :=
  filter (λ ev, schedule_event ev = true) evs.

(** The shuffled orders alone. *)
Definition shuffle_event (ev : Event L) : bool :=
  match ev with
  | EShuffle _ => true
  | _ => false
  end.

Definition orders (evs : list (Event L)) : list (Event L) :=
  filter (λ ev, shuffle_event ev = true) evs.

(** The path an event touches, if any. *)
Definition event_path (ev : Event L) : option (Path L) :=
  match ev with
  | EExists p | EMkdir p | EToDisk p | ELoad p => Some p
  | _ => None
  end.

(** One batch as the log shows it: the examples with the document and the
    gold parse made of each, and the loss dict and optimizer handed to
    [nlp.update]. *)
Record batch_view : Type := MkBatchView {
  bv_items : list (Example * (Doc L * Gold L));
  bv_losses : Losses L;
  bv_sgd : Optimizer L;
}.

Definition item_events (it : Example * (Doc L * Gold L)) : list (Event L) :=
  [EMakeDoc (fst (fst it)); EGoldParse (fst (snd it)) (snd (fst it))].

Definition batch_events (b : batch_view) : list (Event L) :=
  flat_map item_events (bv_items b)
  ++ [EUpdate (map (λ it, fst (snd it)) (bv_items b))
              (map (λ it, snd (snd it)) (bv_items b))
              (bv_losses b) (bv_sgd b) true (35 # 100)].

(** One epoch as the log shows it. *)
Record epoch_view : Type := MkEpochView {
  ev_order : list Example;
  ev_batches : list batch_view;
  ev_printed : Losses L;
}.

Definition epoch_events (e : epoch_view) : list (Event L) :=
  EShuffle (ev_order e)
  :: flat_map batch_events (ev_batches e)
  ++ [EPrintLosses (ev_printed e)].

(** The batches cut a list in runs of [n]: all of it, in order, every batch
    but the last of length [n], the last one not empty and not longer. *)
Definition cut_in_batches {A} (n : nat) (l : list A) (bs : list (list A)) : Prop :=
  concat bs = l ∧
  Forall (λ b, 1 ≤ length b ≤ n) bs ∧
  ∀ k b, bs !! k = Some b → S k < length bs → length b = n.

(** An epoch over [data]: the order is a shuffle of the data, it is shown
    in batches of three, and the loss dict starts empty. *)
Definition epoch_shape (data : list Example) (e : epoch_view) : Prop :=
  ev_order e ≡ₚ data ∧
  cut_in_batches 3 (ev_order e) (map (λ b, map fst (bv_items b)) (ev_batches e)) ∧
  match ev_batches e with
  | b :: _ => bv_losses b = ∅
  | [] => ev_printed e = ∅
  end.

(** The library leaves [meta["name"]] alone while it tokenises and
    updates. *)
Definition keeps_meta_name : Prop :=
  (∀ nlp raw_text doc nlp',
     make_doc L nlp raw_text = Returns (doc, nlp') →
     meta nlp' !! "name" = meta nlp !! "name") ∧
  (∀ nlp docs golds losses sgd us drop losses' sgd' nlp',
     update L nlp docs golds losses sgd us drop = Returns (losses', sgd', nlp') →
     meta nlp' !! "name" = meta nlp !! "name").

(** *** The loops, unrolled over the list *)

(** [n] examples at a time. *)
Fixpoint chunks {A} (fuel n : nat) (l : list A) : list (list A) :=
  match fuel, l with
  | S fuel', _ :: _ => take n l :: chunks fuel' n (drop n l)
  | _, _ => []
  end.

(** The generator body over a known list of examples. *)
Fixpoint gold_items (xs : list Example) : M L (list (Doc L * Gold L)) :=
  match xs with
  | [] => ret []
  | ex :: xs' =>
      doc <- nlp_make_doc (fst ex) ;;
      gold <- lib (EGoldParse doc (snd ex)) (GoldParse L doc (snd ex)) ;;
      rest <- gold_items xs' ;;
      ret ((doc, gold) :: rest)
  end.

(** The inner loop over known batches. *)
Fixpoint train_batches (bs : list (list Example))
    (st : Losses L * Optimizer L) : M L (Losses L * Optimizer L) :=
  match bs with
  | [] => ret st
  | b :: bs' =>
      items <- gold_items b ;;
      st' <- train_batch items st ;;
      train_batches bs' st'
  end.

(** An epoch without generators. *)
Definition epoch_unrolled (optimizer : Optimizer L) : M L (Optimizer L) :=
  random_shuffle ;;
  x <- get_train_data ;;
  st <- train_batches (chunks (length x) 3 x) (∅, optimizer) ;;
  emit (EPrintLosses (fst st)) ;;
  ret (snd st).

(** The run returned. *)
Definition returned {A} (o : outcome L A) : bool :=
  match o with
  | Ok _ => true
  | _ => false
  end.

(** The library exception the run ended with, if it ended with one. *)
Definition lib_error {A} (o : outcome L A) : option (LibExn L) :=
  match o with
  | Raise (LibError e) => Some e
  | _ => None
  end.

(** *** Relations between the world before and after a run *)

(** [m] keeps the worlds before and after it in the relation [R]. *)
Definition preserves {A} (R : relation (World L)) (m : M L A) : Prop :=
  ∀ w, R w (snd (m w)).

(** The training data, the file system and the generator, each as it
    was. *)
Definition same_data : relation (World L) := λ w w', w_train_data w' = w_train_data w.
Definition same_fs : relation (World L) := λ w w', w_fs w' = w_fs w.
Definition same_random : relation (World L) := λ w w', w_random w' = w_random w.
Definition shuffled : relation (World L) := λ w w', w_train_data w' ≡ₚ w_train_data w.

(** The pipeline keeps the value of [meta["name"]]. *)
Definition same_name : relation (World L) :=
  λ w w', meta (w_nlp w') !! "name" = meta (w_nlp w) !! "name".

(** The frame of [get_gold_parses] after [n] more items were asked for at
    index [i] of a list of length [len]. *)
Definition frame_after (n i len : nat) : gold_frame :=
  if decide (n ≤ len - i) then GFor (n + i) else GDone.

(** The world in which the training loop of [train_ner] starts, once
    [begin_training] has answered. *)
Definition loop_entry (w : World L) (nlp1 : Nlp L) : World L :=
  MkWorld (seed L 0)
    (MkLanguage (vocab nlp1) (pipeline nlp1)
       (<["name":="en_ent_animal"]> (meta nlp1)))
    (w_train_data w) (w_fs w)
    (w_log w ++ [ESeed 0; EBeginTraining (w_nlp w)]).

(** A run only adds events, and only events of the kind [P]. *)
Definition log_adds (P : Event L → Prop) : relation (World L) :=
  λ w w', ∃ evs, w_log w' = w_log w ++ evs ∧ Forall P evs.

(** The events of the training: everything [train_ner] does without an
    output directory. *)
Definition train_ner_event (ev : Event L) : bool :=
  match ev with
  | ESeed _ | EBeginTraining _ | ERaise _ => true
  | _ => training_event ev
  end.

(** What [train_ner] may log: the training, and the saving at the path it
    was given. *)
Definition train_ner_logs (output_dir : pyarg L) (ev : Event L) : Prop :=
  match ev with
  | EExists p | EMkdir p | EToDisk p => output_dir = PPath p
  | _ => train_ner_event ev = true
  end.

(** What [main] may log: the file system is touched at the converted output
    directory only, and the reloaded pipeline is run only if there is one. *)
Definition main_logs (output_directory : option string) (ev : Event L) : Prop :=
  match ev with
  | EExists p | EMkdir p | EToDisk p | ELoad p =>
      ∃ d, output_directory = Some d ∧ p = mkPath L d
  | ECall Reloaded _ => output_directory ≠ None
  | _ => True
  end.

(** What [main] logs before it calls [train_ner]. *)
Definition setup_events (model_name : string) : list (Event L) :=
  [EPrint ("Creating initial model " +:+ model_name); EBlank model_name;
   ETokenVectorEncoder; ENeuralEntityRecognizer; EAddLabel "ANIMAL"].

(** The pipeline [main] hands to [train_ner]. *)
Definition built_pipeline (nlp0 : Nlp L) (tve ner : Component L) : Nlp L :=
  MkLanguage (vocab nlp0) (pipeline nlp0 ++ [tve; ner]) (meta nlp0).

(** The world in which [main] calls [train_ner]. *)
Definition train_entry (w : World L) (model_name : string)
    (nlp0 : Nlp L) (tve ner : Component L) : World L :=
  MkWorld (w_random w) (built_pipeline nlp0 tve ner) main_train_data (w_fs w)
          (w_log w ++ setup_events model_name).

(** The argument [main] passes to [train_ner]. *)
Definition as_pyarg (output_directory : option string) : pyarg L :=
  match output_directory with
  | Some d => PPath (mkPath L d)
  | None => PNone
  end.

(** [print(ent.label_, ent.text)] *)
Definition ent_line (ent : Ent L) : Event L :=
  EPrint (label_ L ent +:+ " " +:+ ent_text L ent).

(** The reloading of the pipeline and the prediction made with it. *)
Definition reload_event (ev : Event L) : bool :=
  match ev with
  | ELoad _ | ECall Reloaded _ => true
  | _ => false
  end.

(** *** Further vocabulary *)

(** [randbelow(n)] answers below [n], as its name says. *)
Definition randbelow_bounded : Prop :=
  ∀ r n, 0 < n → fst (randbelow L r n) < n.

(** The run returned, or ended with an exception raised inside a library. *)
Definition lib_outcome {A} (o : outcome L A) : Prop :=
  match o with
  | Ok _ | Raise (LibError _) => True
  | _ => False
  end.

Definition update_event (ev : Event L) : bool :=
  match ev with
  | EUpdate _ _ _ _ _ _ => true
  | _ => false
  end.

Definition make_doc_event (ev : Event L) : bool :=
  match ev with
  | EMakeDoc _ => true
  | _ => false
  end.

(** The batches of an epoch hand the loss dict and the optimizer on: each
    [nlp.update] is given what the one before it left, the first one [st],
    and the last one leaves [st']. *)
Fixpoint chained (st : Losses L * Optimizer L) (bvs : list batch_view)
    (st' : Losses L * Optimizer L) : Prop :=
  match bvs with
  | [] => st' = st
  | b :: bvs' =>
      bv_losses b = fst st ∧ bv_sgd b = snd st ∧
      ∃ nlp nlp' st1,
        update L nlp (map (λ it, fst (snd it)) (bv_items b))
          (map (λ it, snd (snd it)) (bv_items b))
          (fst st) (snd st) true (35 # 100)
        = Returns (st1, nlp') ∧
        chained st1 bvs' st'
  end.

(** The epochs hand the optimizer on, and each starts from an empty loss
    dict and prints the one its last batch left. *)
Fixpoint epochs_chained (sgd : Optimizer L) (eps : list epoch_view)
    (sgd' : Optimizer L) : Prop :=
  match eps with
  | [] => sgd' = sgd
  | e :: eps' =>
      ∃ sgd1,
        chained (∅, sgd) (ev_batches e) (ev_printed e, sgd1) ∧
        epochs_chained sgd1 eps' sgd'
  end.



(** How many of the events are of the kind [f]. *)
Definition count_events (f : Event L → bool) (evs : list (Event L)) : nat :=
  length (filter (λ ev, f ev = true) evs).

Definition gold_parse_event (ev : Event L) : bool :=
  match ev with
  | EGoldParse _ _ => true
  | _ => false
  end.

(** The events of the set-up of [main], and of a failure. *)
Definition setup_event (ev : Event L) : bool :=
  match ev with
  | EPrint _ | EBlank _ | ETokenVectorEncoder | ENeuralEntityRecognizer
  | EAddLabel _ | ERaise _ => true
  | _ => false
  end.

(** *** The calls, replayed *)













End Statements.

(** ** A small library to run the script on *)

Module Toy.

(** A linear congruential generator stands for [random]; [update] counts
    the documents it was shown under the key ["ner"] and fails on the call
    numbered [fail_at], if any. *)
Definition toy_next (r : N) : N := ((r * 1103515245 + 12345) mod 2147483648)%N.

Definition toy_update (fail_at : option nat)
    (nlp : Language unit (string * list string))
    (docs : list string) (golds : list (string * list Span))
    (losses : gmap string nat) (sgd : nat) (update_shared : bool) (drop : Q)
  : answer string (gmap string nat * nat * Language unit (string * list string)) :=
  if bool_decide (fail_at = Some sgd) then Raises "update failed"
  else Returns (<["ner" := length docs + default 0 (losses !! "ner")]> losses,
                S sgd, nlp).

(** A parser: [-h] asks for the usage, any other argument with a leading
    dash is an error, and so are too few or too many arguments. *)
Definition toy_parse (argv : list string) : plac_answer :=
  if forallb (fun s => negb (String.prefix "-" s)) argv then
    match argv with
    | [model_name] => PlacCall model_name None
    | [model_name; output_directory] =>
        PlacCall model_name (Some output_directory)
    | _ => PlacExit 2
    end
  else if existsb (String.eqb "-h") argv then PlacExit 0
  else PlacExit 2.

Definition lib (fail_at : option nat) : Library := {|
  Vocab := unit;
  Component := string * list string;
  Doc := string;
  Gold := string * list Span;
  Optimizer := nat;
  Loss := nat;
  Ent := string * string;
  Path := string;
  FS := list string;
  Rng := N;
  LibExn := string;
  blank := fun name => Returns (MkLanguage tt [] {[ "lang" := name ]});
  load := fun p fs =>
    if bool_decide (p ∈ fs) then Returns (MkLanguage tt [] ∅)
    else Raises "no such directory";
  TokenVectorEncoder := fun _ => Returns ("tok2vec", []);
  NeuralEntityRecognizer := fun _ => Returns ("ner", []);
  add_label := fun c label => Returns (fst c, snd c ++ [label]);
  begin_training := fun nlp => Returns (0, nlp);
  make_doc := fun nlp raw_text => Returns (raw_text, nlp);
  GoldParse := fun doc entities => Returns (doc, entities);
  update := toy_update fail_at;
  call := fun nlp txt => Returns (txt, nlp);
  ents := fun doc => [("ANIMAL", "horses")];
  label_ := fst;
  ent_text := snd;
  to_disk := fun nlp p fs =>
    if bool_decide (p ∈ fs) then Returns fs else Raises "no such directory";
  mkPath := fun s => s;
  str_path := fun p => p;
  path_exists := fun p fs => Returns (bool_decide (p ∈ fs));
  path_mkdir := fun p fs => Returns (p :: fs);
  seed := fun a => Z.to_N a;
  randbelow := fun r n => (N.to_nat (toy_next r mod N.of_nat n), toy_next r);
  plac_parse := toy_parse;
|}.

(** A world to start [main] in: nothing on disk, nothing logged. *)
Definition world0 (fail_at : option nat) : World (lib fail_at) :=
  MkWorld (L := lib fail_at) 7%N (MkLanguage tt [] ∅) [] [] [].

(** A world to start [train_ner] in: the pipeline and the data of [main]. *)
Definition trained_world (fail_at : option nat) : World (lib fail_at) :=
  MkWorld (L := lib fail_at) 7%N
    (MkLanguage tt [("tok2vec", []); ("ner", ["ANIMAL"])] {[ "lang" := "en" ]})
    main_train_data [] [].

(** The same pipeline and data in another process: another state of the
    generator, a directory on disk, a line in the log. *)
Definition other_world (fail_at : option nat) : World (lib fail_at) :=
  MkWorld (L := lib fail_at) 2024%N
    (MkLanguage tt [("tok2vec", []); ("ner", ["ANIMAL"])] {[ "lang" := "en" ]})
    main_train_data ["models"] [EPrint "earlier"].

(** The output directory of the examples. *)
Definition out (fail_at : option nat) : Path (lib fail_at) := "out".

End Toy.

(** ** The monad *)

Section Monad.
Context {L : Library}.
Implicit Types w : World L.

Lemma bind_assoc {A B C} (m : M L A) (k : A → M L B) (h : B → M L C) w :
  bind (bind m k) h w = bind m (λ a, bind (k a) h) w.
Proof. unfold bind. destruct (m w) as [[a| |] w1]; reflexivity. Qed.

Lemma bind_ok_inv {A B} (m : M L A) (k : A → M L B) w b w' :
  bind m k w = (Ok b, w') →
  ∃ a w1, m w = (Ok a, w1) ∧ k a w1 = (Ok b, w').
Proof.
  unfold bind. destruct (m w) as [[a| |] w1]; intros H; try discriminate.
  eauto.
Qed.

Lemma bind_ext {A B} (m : M L A) (k k' : A → M L B) w :
  (∀ a w1, k a w1 = k' a w1) → bind m k w = bind m k' w.
Proof. intros H. unfold bind. destruct (m w) as [[a| |] w1]; auto. Qed.

Lemma run_returned (m : M L unit) w :
  returned (fst (m w)) = true → m w = (Ok tt, snd (m w)).
Proof. by destruct (m w) as [[[]|e|] w1]. Qed.

Lemma lib_returns {A} ev (v : A) w :
  lib ev (Returns v) w
  = (Ok v, MkWorld (w_random w) (w_nlp w) (w_train_data w) (w_fs w) (w_log w ++ [ev])).
Proof. reflexivity. Qed.

Lemma lib_raises {A} ev e w :
  @lib L A ev (Raises e) w
  = (Raise (LibError e),
     MkWorld (w_random w) (w_nlp w) (w_train_data w) (w_fs w)
             (w_log w ++ [ev; ERaise (LibError e)])).
Proof. unfold lib, bind, emit, raise. simpl. by rewrite <- app_assoc. Qed.

Lemma lib_ok_inv {A} ev (a : answer (LibExn L) A) w v w' :
  lib ev a w = (Ok v, w') →
  a = Returns v ∧
  w' = MkWorld (w_random w) (w_nlp w) (w_train_data w) (w_fs w) (w_log w ++ [ev]).
Proof.
  destruct a as [v0|e]; [rewrite lib_returns | rewrite lib_raises];
    intros H; inversion H; auto.
Qed.

End Monad.

(** ** [random.shuffle] permutes the list it is given *)

Section Shuffle.
Context {L : Library}.
Implicit Types w : World L.

Lemma insert_Permutation {A} (l : list A) i x y :
  l !! i = Some x → <[i:=y]> l ≡ₚ y :: delete i l.
Proof.
  revert i. induction l as [|a l IH]; intros [|i] H; simplify_eq/=; auto.
  rewrite (IH i H). apply Permutation_swap.
Qed.

Lemma swap_Permutation {A} (l : list A) i j xi xj :
  l !! i = Some xi → l !! j = Some xj →
  <[j:=xi]> (<[i:=xj]> l) ≡ₚ l.
Proof.
  intros Hi Hj. destruct (decide (i = j)) as [->|Hne].
  - simplify_eq. rewrite list_insert_insert_eq. by rewrite list_insert_id.
  - assert (Hj' : <[i:=xj]> l !! j = Some xj) by by rewrite list_lookup_insert_ne.
    rewrite (insert_Permutation _ _ _ xi Hj').
    rewrite (delete_Permutation l i xi Hi) at 2.
    apply Permutation_cons; [done|].
    apply (Permutation_cons_inv (a := xj)).
    rewrite <- (delete_Permutation _ _ _ Hj').
    by apply insert_Permutation with (x := xi).
Qed.

End Shuffle.

(** ** Nothing is caught *)

Section Propagates.
Context {L : Library}.
Implicit Types w : World L.

Lemma quiet_nil : quiet (L := L) [].
Proof. intros e H. by apply elem_of_nil in H. Qed.

Lemma quiet_app (l1 l2 : list (Event L)) : quiet l1 → quiet l2 → quiet (l1 ++ l2).
Proof. intros H1 H2 e [H|H]%elem_of_app; [by apply (H1 e) | by apply (H2 e)]. Qed.

Lemma quiet_one (ev : Event L) : (∀ e, ev ≠ ERaise e) → quiet [ev].
Proof. intros H e He%list_elem_of_singleton. by apply (H e). Qed.

Lemma propagates_ret {A} (a : A) : propagates (L := L) (ret a).
Proof. intros w. exists []. simpl. rewrite app_nil_r. split; [done | apply quiet_nil]. Qed.

Lemma propagates_pure {A} (f : World L → A * World L) :
  (∀ w, w_log (snd (f w)) = w_log w) →
  propagates (L := L) (λ w, (Ok (fst (f w)), snd (f w))).
Proof.
  intros H w. exists []. simpl. rewrite app_nil_r. split; [apply H | apply quiet_nil].
Qed.

Lemma propagates_emit (ev : Event L) : (∀ e, ev ≠ ERaise e) → propagates (emit ev).
Proof. intros H w. exists [ev]. simpl. split; [done | by apply quiet_one]. Qed.

Lemma propagates_raise {A} (e : exn L) : propagates (@raise L A e).
Proof.
  intros w. exists [ERaise e]. simpl. split; [done|].
  exists []. split; [done | apply quiet_nil].
Qed.

Lemma propagates_bind {A B} (m : M L A) (k : A → M L B) :
  propagates m → (∀ a, propagates (k a)) → propagates (bind m k).
Proof.
  intros Hm Hk w. destruct (Hm w) as (evs & Hlog & Hout).
  unfold bind. destruct (m w) as [[a|e|] w1]; simpl in *.
  - destruct (Hk a w1) as (evs' & Hlog' & Hout').
    exists (evs ++ evs'). rewrite Hlog', Hlog, app_assoc. split; [done|].
    destruct (fst (k a w1)).
    + by apply quiet_app.
    + destruct Hout' as (pre & -> & Hpre). exists (evs ++ pre).
      rewrite app_assoc. split; [done | by apply quiet_app].
    + done.
  - exists evs. done.
  - done.
Qed.

Lemma propagates_lib {A} ev (a : answer (LibExn L) A) :
  (∀ e, ev ≠ ERaise e) → propagates (lib ev a).
Proof.
  intros H. unfold lib. apply propagates_bind; [by apply propagates_emit|].
  intros _. destruct a; [apply propagates_ret | apply propagates_raise].
Qed.

Lemma propagates_ext {A} (m m' : M L A) :
  (∀ w, m w = m' w) → propagates m' → propagates m.
Proof. intros H Hm w. rewrite H. apply Hm. Qed.

End Propagates.

Create HintDb prop_db.
#[export] Hint Resolve propagates_ret propagates_raise propagates_bind : prop_db.
#[export] Hint Extern 1 (propagates (emit _)) =>
  apply propagates_emit; discriminate : prop_db.
#[export] Hint Extern 1 (propagates (lib _ _)) =>
  apply propagates_lib; discriminate : prop_db.
#[export] Hint Extern 1 (propagates (print _)) =>
  apply propagates_emit; discriminate : prop_db.
#[export] Hint Extern 1 (propagates get_nlp) =>
  apply (propagates_pure (λ w, (w_nlp w, w))); done : prop_db.
#[export] Hint Extern 1 (propagates get_fs) =>
  apply (propagates_pure (λ w, (w_fs w, w))); done : prop_db.
#[export] Hint Extern 1 (propagates get_random) =>
  apply (propagates_pure (λ w, (w_random w, w))); done : prop_db.
#[export] Hint Extern 1 (propagates get_train_data) =>
  apply (propagates_pure (λ w, (w_train_data w, w))); done : prop_db.
#[export] Hint Extern 1 (propagates (set_nlp ?n)) =>
  apply (propagates_pure (λ w, (tt, MkWorld (w_random w) n (w_train_data w) (w_fs w) (w_log w)))); done : prop_db.
#[export] Hint Extern 1 (propagates (set_fs ?f)) =>
  apply (propagates_pure (λ w, (tt, MkWorld (w_random w) (w_nlp w) (w_train_data w) f (w_log w)))); done : prop_db.
#[export] Hint Extern 1 (propagates (set_random ?r)) =>
  apply (propagates_pure (λ w, (tt, MkWorld r (w_nlp w) (w_train_data w) (w_fs w) (w_log w)))); done : prop_db.
#[export] Hint Extern 1 (propagates (set_train_data ?x)) =>
  apply (propagates_pure (λ w, (tt, MkWorld (w_random w) (w_nlp w) x (w_fs w) (w_log w)))); done : prop_db.

Section PropagatesScript.
Context {L : Library}.

Lemma propagates_random_seed a : propagates (L := L) (random_seed a).
Proof. unfold random_seed. eauto with prop_db. Qed.

Lemma propagates_randbelow n : propagates (L := L) (random_randbelow n).
Proof. unfold random_randbelow. eauto 10 with prop_db. Qed.

Lemma propagates_swap_items i j : propagates (L := L) (swap_items i j).
Proof.
  unfold swap_items. apply propagates_bind; [eauto with prop_db|].
  intros x. destruct (x !! j); [destruct (x !! i)|]; eauto with prop_db.
Qed.

Lemma propagates_shuffle_down i : propagates (L := L) (shuffle_down i).
Proof.
  induction i; simpl; eauto 10 using propagates_randbelow, propagates_swap_items with prop_db.
Qed.

Lemma propagates_random_shuffle : propagates (L := L) random_shuffle.
Proof. unfold random_shuffle. eauto 10 using propagates_shuffle_down with prop_db. Qed.

Lemma propagates_make_doc t : propagates (L := L) (nlp_make_doc t).
Proof. unfold nlp_make_doc. eauto 10 with prop_db. Qed.



Lemma propagates_gold_items xs : propagates (L := L) (gold_items xs).
Proof.
  induction xs; simpl; eauto 10 using propagates_make_doc with prop_db.
Qed.

Lemma propagates_update docs golds losses sgd us drop :
  propagates (L := L) (nlp_update docs golds losses sgd us drop).
Proof. unfold nlp_update. eauto 10 with prop_db. Qed.

Lemma propagates_train_batch b st : propagates (L := L) (train_batch b st).
Proof.
  unfold train_batch. destruct b; eauto using propagates_update with prop_db.
Qed.

Lemma propagates_train_batches bs st : propagates (L := L) (train_batches bs st).
Proof.
  revert st. induction bs; intros st; simpl;
    eauto 10 using propagates_gold_items, propagates_train_batch with prop_db.
Qed.

Lemma propagates_epoch_unrolled optimizer :
  propagates (L := L) (epoch_unrolled optimizer).
Proof.
  unfold epoch_unrolled.
  eauto 10 using propagates_random_shuffle, propagates_train_batches with prop_db.
Qed.

Lemma propagates_for_range {S} n (body : S → M L S) s :
  (∀ s, propagates (body s)) → propagates (for_range n body s).
Proof.
  intros H. revert s. induction n; intros s; simpl; eauto with prop_db.
Qed.

Lemma propagates_for_list {A} (xs : list A) (body : A → M L unit) :
  (∀ x, propagates (body x)) → propagates (for_list xs body).
Proof. intros H. induction xs; simpl; eauto with prop_db. Qed.

Lemma propagates_save_model output_dir : propagates (L := L) (save_model output_dir).
Proof.
  unfold save_model. destruct (negb (truthy output_dir)); [eauto with prop_db|].
  destruct output_dir; [eauto with prop_db..|].
  apply propagates_bind; [eauto with prop_db | intros fs].
  apply propagates_bind; [eauto with prop_db | intros e].
  apply propagates_bind; [destruct (negb e) | intros _]; eauto 10 with prop_db.
Qed.

Lemma propagates_set_meta k v : propagates (L := L) (set_meta k v).
Proof. unfold set_meta. eauto with prop_db. Qed.

Lemma propagates_pipeline_append c : propagates (L := L) (pipeline_append c).
Proof. unfold pipeline_append. eauto with prop_db. Qed.

Lemma propagates_add_label label :
  propagates (L := L) (pipeline_last_add_label label).
Proof.
  unfold pipeline_last_add_label. apply propagates_bind; [eauto with prop_db|].
  intros nlp. destruct (last (pipeline nlp)); eauto 10 with prop_db.
Qed.

Lemma propagates_print_ents doc : propagates (L := L) (print_ents doc).
Proof. unfold print_ents. apply propagates_for_list. eauto with prop_db. Qed.

End PropagatesScript.

(** ** What a program leaves alone *)

Section Preserves.
Context {L : Library}.
Implicit Types w : World L.

Lemma preserves_bind {A B} (R : relation (World L)) `{!Transitive R}
    (m : M L A) (k : A → M L B) :
  preserves R m → (∀ a, preserves R (k a)) → preserves R (bind m k).
Proof.
  intros Hm Hk w. specialize (Hm w). unfold bind.
  destruct (m w) as [[a|e|] w1]; simpl in *; [|done..].
  etrans; [exact Hm | apply Hk].
Qed.

Lemma preserves_ret {A} (R : relation (World L)) `{!Reflexive R} (a : A) :
  preserves R (ret a).
Proof. intros w. simpl. reflexivity. Qed.

Lemma preserves_out_of_fuel {A} (R : relation (World L)) `{!Reflexive R} :
  preserves R (@out_of_fuel L A).
Proof. intros w. simpl. reflexivity. Qed.

Lemma preserves_ext {A} (R : relation (World L)) (m m' : M L A) :
  (∀ w, m w = m' w) → preserves R m' → preserves R m.
Proof. intros H Hm w. rewrite H. apply Hm. Qed.

(** Running [m] first, the rest may rely on what [m] leaves alone. *)
Lemma bind_ext_after {A B} (R : relation (World L)) (m : M L A)
    (k k' : A → M L B) w :
  preserves R m → (∀ a w1, R w w1 → k a w1 = k' a w1) →
  bind m k w = bind m k' w.
Proof.
  intros Hm H. specialize (Hm w). unfold bind.
  destruct (m w) as [[a|e|] w1]; simpl in *; auto.
Qed.

Lemma bind_ext_run {A B} (m : M L A) (k k' : A → M L B) w :
  (∀ a w1, m w = (Ok a, w1) → k a w1 = k' a w1) → bind m k w = bind m k' w.
Proof. intros H. unfold bind. destruct (m w) as [[a|e|] w1]; auto. Qed.

Lemma bind_run {A B} (m : M L A) (k : A → M L B) w o w1 :
  m w = (o, w1) →
  bind m k w = match o with
               | Ok a => k a w1
               | Raise e => (Raise e, w1)
               | OutOfFuel => (OutOfFuel, w1)
               end.
Proof. unfold bind. by intros ->. Qed.

Lemma bind_ret_l {A B} (a : A) (k : A → M L B) w : bind (ret a) k w = k a w.
Proof. reflexivity. Qed.

Lemma bind_cong_l {A B} (m m' : M L A) (k : A → M L B) w :
  m w = m' w → bind m k w = bind m' k w.
Proof. unfold bind. by intros ->. Qed.

#[export] Instance same_data_po : PreOrder (same_data (L := L)).
Proof. split; [intros w; reflexivity | intros w1 w2 w3; unfold same_data; congruence]. Qed.
#[export] Instance same_fs_po : PreOrder (same_fs (L := L)).
Proof. split; [intros w; reflexivity | intros w1 w2 w3; unfold same_fs; congruence]. Qed.
#[export] Instance same_random_po : PreOrder (same_random (L := L)).
Proof. split; [intros w; reflexivity | intros w1 w2 w3; unfold same_random; congruence]. Qed.
#[export] Instance shuffled_po : PreOrder (shuffled (L := L)).
Proof.
  split; [intros w; unfold shuffled; reflexivity
         | intros w1 w2 w3; unfold shuffled; intros H1 H2; by rewrite H2].
Qed.

Lemma preserves_emit (R : relation (World L)) ev :
  (∀ w lg, R w (MkWorld (w_random w) (w_nlp w) (w_train_data w) (w_fs w) lg)) →
  preserves R (emit ev).
Proof. intros H w. apply H. Qed.

Lemma preserves_raise {A} (R : relation (World L)) e :
  (∀ w lg, R w (MkWorld (w_random w) (w_nlp w) (w_train_data w) (w_fs w) lg)) →
  preserves R (@raise L A e).
Proof. intros H w. apply H. Qed.

Lemma preserves_lib {A} (R : relation (World L)) `{!PreOrder R} ev
    (a : answer (LibExn L) A) :
  (∀ w lg, R w (MkWorld (w_random w) (w_nlp w) (w_train_data w) (w_fs w) lg)) →
  preserves R (lib ev a).
Proof.
  intros H. unfold lib. apply preserves_bind; [apply _ | by apply preserves_emit |].
  intros _. destruct a; [apply preserves_ret, _ | by apply preserves_raise].
Qed.

End Preserves.

Ltac frame_prim := intros ?; red; simpl; done.
Ltac frame :=
  repeat first
    [ apply preserves_ret; apply _
    | apply preserves_out_of_fuel; apply _
    | apply preserves_lib; [apply _ | intros ? ?; red; simpl; done]
    | apply preserves_emit; intros ? ?; red; simpl; done
    | apply preserves_raise; intros ? ?; red; simpl; done
    | apply preserves_bind; [apply _ | | intros ?]
    | frame_prim ].

(** ** The generators run the loops over the list *)

Section Unroll.
Context {L : Library}.
Implicit Types w : World L.

Lemma same_data_make_doc t : preserves (L := L) same_data (nlp_make_doc t).
Proof. unfold nlp_make_doc. frame. Qed.

Lemma same_data_update docs golds losses sgd us drop :
  preserves (L := L) same_data (nlp_update docs golds losses sgd us drop).
Proof. unfold nlp_update. frame. Qed.

Lemma same_data_train_batch b st : preserves (L := L) same_data (train_batch b st).
Proof.
  unfold train_batch. destruct b; [frame | apply same_data_update].
Qed.

Lemma same_data_gold_items xs : preserves (L := L) same_data (gold_items xs).
Proof.
  induction xs as [|ex xs IH]; simpl; [frame|].
  apply preserves_bind; [apply _ | apply same_data_make_doc | intros doc].
  apply preserves_bind; [apply _ | frame | intros gold].
  apply preserves_bind; [apply _ | apply IH | intros rest]. frame.
Qed.

Lemma gold_items_length xs w items w' :
  gold_items xs w = (Ok items, w') → length items = length xs.
Proof.
  revert w items w'. induction xs as [|ex xs IH]; intros w items w' H; simpl in H.
  - by inversion H.
  - apply bind_ok_inv in H as (doc & w1 & _ & H).
    apply bind_ok_inv in H as (gold & w2 & _ & H).
    apply bind_ok_inv in H as (rest & w3 & Hr & H).
    inversion H; subst. simpl. f_equal. eauto.
Qed.

Lemma bind_get_train_data {A} (k : list Example → M L A) w :
  bind get_train_data k w = k (w_train_data w) w.
Proof. reflexivity. Qed.

Lemma gold_for_Some tokenizer i w ex :
  w_train_data w !! i = Some ex →
  gold_for tokenizer i w
  = bind (tokenizer (fst ex))
      (λ doc, bind (lib (EGoldParse doc (snd ex)) (GoldParse L doc (snd ex)))
         (λ gold, ret (Some (doc, gold), GFor (S i)))) w.
Proof.
  intros H. unfold gold_for. rewrite bind_get_train_data. cbv beta.
  rewrite H. by destruct ex.
Qed.

Lemma gold_for_None tokenizer i w :
  w_train_data w !! i = None →
  gold_for tokenizer i w = (Ok (None, GDone), w).
Proof.
  intros H. unfold gold_for. rewrite bind_get_train_data. cbv beta. by rewrite H.
Qed.

Lemma take_items_unroll n i w :
  take_items n (get_gold_parses nlp_make_doc) (GFor i) w
  = bind (gold_items (take n (drop i (w_train_data w))))
         (λ r, ret (r, frame_after n i (length (w_train_data w)))) w.
Proof.
  revert i w. induction n as [|n IH]; intros i w.
  - simpl. unfold frame_after. rewrite decide_True by lia. done.
  - change (take_items (S n) (get_gold_parses nlp_make_doc) (GFor i) w)
      with (bind (gold_for nlp_make_doc i)
              (λ r, match r with
                    | (None, frame') => ret ([], frame')
                    | (Some a, frame') =>
                        bind (take_items n (get_gold_parses nlp_make_doc) frame')
                             (λ r', ret (a :: fst r', snd r'))
                    end) w).
    destruct (w_train_data w !! i) as [ex|] eqn:Hi.
    + erewrite drop_S by exact Hi. simpl take. simpl gold_items.
      rewrite (bind_cong_l _ _ _ _ (gold_for_Some _ _ _ _ Hi)).
      rewrite !bind_assoc.
      apply (bind_ext_after same_data); [apply same_data_make_doc|].
      intros doc w1 H1. rewrite !bind_assoc.
      apply (bind_ext_after same_data); [frame|].
      intros gold w2 H2. rewrite !bind_assoc.
      unfold bind at 1. simpl. rewrite (bind_cong_l _ _ _ _ (IH (S i) w2)).
      rewrite !bind_assoc. red in H1, H2. rewrite H2, H1.
      apply bind_ext. intros rest w3. unfold bind, ret. simpl.
      do 2 f_equal. unfold frame_after.
      apply lookup_lt_Some in Hi. f_equal.
      repeat case_decide; try lia; f_equal; lia.
    + rewrite (bind_cong_l _ _ _ _ (gold_for_None _ _ _ Hi)).
      apply lookup_ge_None in Hi. rewrite drop_ge by done. simpl.
      unfold bind, ret. simpl. do 2 f_equal. unfold frame_after.
      rewrite decide_False by lia. done.
Qed.

Lemma minibatch_unroll n i w :
  minibatch (get_gold_parses nlp_make_doc) n (GFor i) w
  = bind (gold_items (take n (drop i (w_train_data w))))
         (λ r, match r with
               | [] => ret (None, frame_after n i (length (w_train_data w)))
               | _ => ret (Some r, frame_after n i (length (w_train_data w)))
               end) w.
Proof.
  unfold minibatch. rewrite (bind_cong_l _ _ _ _ (take_items_unroll n i w)).
  rewrite bind_assoc. apply bind_ext. intros r w1. by destruct r.
Qed.

Lemma for_each_done fuel st w :
  for_each (S fuel) (minibatch (get_gold_parses nlp_make_doc) 3)
    train_batch GDone st w = (Ok st, w).
Proof. reflexivity. Qed.

Lemma chunks_nil {A} fuel n : chunks (A := A) fuel n [] = [].
Proof. by destruct fuel. Qed.

Lemma for_each_unroll fuel i st w :
  length (w_train_data w) - i ≤ fuel →
  for_each (S fuel) (minibatch (get_gold_parses nlp_make_doc) 3)
    train_batch (GFor i) st w
  = train_batches (chunks fuel 3 (drop i (w_train_data w))) st w.
Proof.
  revert i st w. induction fuel as [|fuel IH]; intros i st w Hfuel;
    (change (for_each (S ?f) ?g ?b (GFor i) st w)
      with (bind (g (GFor i))
              (λ r, match r with
                    | (None, _) => ret st
                    | (Some a, frame') =>
                        bind (b a st) (λ s', for_each f g b frame' s')
                    end) w);
     rewrite (bind_cong_l _ _ _ _ (minibatch_unroll 3 i w)), bind_assoc;
     destruct (drop i (w_train_data w)) as [|a l] eqn:Hd;
       [rewrite chunks_nil; reflexivity|];
     assert (Hl : length (a :: l) = length (w_train_data w) - i)
       by (by rewrite <- Hd, length_drop)).
  - simpl in Hl. lia.
  - 
    change (chunks (S fuel) 3 (a :: l))
      with (take 3 (a :: l) :: chunks fuel 3 (drop 3 (a :: l))).
    assert (Hb : 1 ≤ length (take 3 (a :: l))) by (simpl; lia).
    remember (take 3 (a :: l)) as b eqn:Eb. clear Eb.
    remember (drop 3 (a :: l)) as tl eqn:Etl.
    change (train_batches (b :: ?bs) st w)
      with (bind (gold_items b)
              (λ items, bind (train_batch items st)
                          (λ st', train_batches bs st')) w).
    apply bind_ext_run. intros items w1 E.
    pose proof (same_data_gold_items b w) as Hsame.
    pose proof (gold_items_length b w _ _ E) as Hlen.
    red in Hsame. rewrite E in Hsame. simpl in Hsame.
    destruct items as [|it items]; [simpl in Hlen; lia|].
    rewrite bind_ret_l. cbv beta iota.
    apply (bind_ext_after same_data); [apply same_data_train_batch|].
    intros s' w2 H2. red in H2.
    unfold frame_after. case_decide as Hle.
    + rewrite IH by (rewrite H2, Hsame; lia).
      rewrite H2, Hsame, Etl, <- Hd, drop_drop. do 3 f_equal. lia.
    + rewrite for_each_done. rewrite Etl, (drop_ge (a :: l)) by lia.
      by rewrite chunks_nil.
Qed.

Lemma take_items_start n w :
  take_items (S n) (get_gold_parses nlp_make_doc) GStart w
  = bind random_shuffle
         (λ _, take_items (S n) (get_gold_parses nlp_make_doc) (GFor 0)) w.
Proof. cbn [take_items get_gold_parses]. by rewrite bind_assoc. Qed.

Lemma for_each_start fuel st w :
  for_each (S fuel) (minibatch (get_gold_parses nlp_make_doc) 3)
    train_batch GStart st w
  = bind random_shuffle
      (λ _, for_each (S fuel) (minibatch (get_gold_parses nlp_make_doc) 3)
              train_batch (GFor 0) st) w.
Proof.
  cbn [for_each]. unfold minibatch.
  rewrite (bind_cong_l _ _ _ _ (bind_cong_l _ _ _ _ (take_items_start 2 w))).
  rewrite !bind_assoc. apply bind_ext. intros _ w1. by rewrite bind_assoc.
Qed.

End Unroll.

Section Epoch.
Context {L : Library}.
Implicit Types w : World L.

Lemma preserves_weaken {A} (R R' : relation (World L)) (m : M L A) :
  (∀ w w', R w w' → R' w w') → preserves R m → preserves R' m.
Proof. intros H Hm w. apply H, Hm. Qed.

Lemma shuffled_swap_items i j : preserves (L := L) shuffled (swap_items i j).
Proof.
  intros w. unfold swap_items. rewrite bind_get_train_data. cbv beta.
  destruct (w_train_data w !! j) as [xj|] eqn:Hj; [|red; simpl; done].
  destruct (w_train_data w !! i) as [xi|] eqn:Hi; [|red; simpl; done].
  red. simpl. by apply swap_Permutation.
Qed.

Lemma shuffled_randbelow n : preserves (L := L) shuffled (random_randbelow n).
Proof. unfold random_randbelow. frame. Qed.

Lemma shuffled_shuffle_down i : preserves (L := L) shuffled (shuffle_down i).
Proof.
  induction i as [|i IH]; simpl; [frame|].
  apply preserves_bind; [apply _ | apply shuffled_randbelow | intros j].
  apply preserves_bind; [apply _ | apply shuffled_swap_items | intros _].
  apply IH.
Qed.

Lemma shuffled_random_shuffle : preserves (L := L) shuffled random_shuffle.
Proof.
  unfold random_shuffle.
  apply preserves_bind; [apply _ | frame | intros x].
  apply preserves_bind; [apply _ | apply shuffled_shuffle_down | intros _].
  frame.
Qed.

Lemma train_epoch_unrolled optimizer w :
  train_epoch optimizer w = epoch_unrolled optimizer w.
Proof.
  unfold train_epoch, epoch_unrolled. rewrite bind_get_train_data. cbv beta.
  rewrite (bind_cong_l _ _ _ _ (for_each_start _ _ w)), bind_assoc.
  apply (bind_ext_after shuffled); [apply shuffled_random_shuffle|].
  intros _ w1 H1. apply Permutation_length in H1.
  rewrite bind_get_train_data. cbv beta.
  apply bind_cong_l. rewrite for_each_unroll by lia.
  by rewrite drop_0, H1.
Qed.

Lemma for_range_ext {S} n (body body' : S → M L S) s w :
  (∀ s w, body s w = body' s w) →
  for_range n body s w = for_range n body' s w.
Proof.
  intros H. revert s w. induction n as [|n IH]; intros s w; simpl; [done|].
  rewrite (bind_cong_l _ _ _ _ (H s w)). by apply bind_ext.
Qed.

End Epoch.

(** ** Runs that return *)

Section Returns.
Context {L : Library}.
Implicit Types w : World L.

Lemma nlp_make_doc_ok t w doc w' :
  nlp_make_doc t w = (Ok doc, w') →
  ∃ nlp', make_doc L (w_nlp w) t = Returns (doc, nlp') ∧
    w' = MkWorld (w_random w) nlp' (w_train_data w) (w_fs w)
                 (w_log w ++ [EMakeDoc t]).
Proof.
  unfold nlp_make_doc. intros H.
  apply bind_ok_inv in H as (nlp & w0 & E0 & H). inversion E0; subst; clear E0.
  apply bind_ok_inv in H as ([d nlp'] & w1 & E1 & H).
  apply lib_ok_inv in E1 as [E1 ->]. inversion H; subst. eauto.
Qed.

Lemma nlp_update_ok docs golds losses sgd us drop w r w' :
  nlp_update docs golds losses sgd us drop w = (Ok r, w') →
  ∃ nlp', update L (w_nlp w) docs golds losses sgd us drop = Returns (r, nlp') ∧
    w' = MkWorld (w_random w) nlp' (w_train_data w) (w_fs w)
                 (w_log w ++ [EUpdate docs golds losses sgd us drop]).
Proof.
  unfold nlp_update. intros H.
  apply bind_ok_inv in H as (nlp & w0 & E0 & H). inversion E0; subst; clear E0.
  apply bind_ok_inv in H as ([r' nlp'] & w1 & E1 & H).
  apply lib_ok_inv in E1 as [E1 ->]. inversion H; subst. eauto.
Qed.

Lemma gold_items_ok xs w items w' :
  gold_items xs w = (Ok items, w') →
  length items = length xs ∧
  w_log w' = w_log w ++ flat_map item_events (zip xs items).
Proof.
  revert w items w'. induction xs as [|ex xs IH]; intros w items w' H; simpl in H.
  - inversion H; subst. simpl. by rewrite app_nil_r.
  - apply bind_ok_inv in H as (doc & w1 & E1 & H).
    apply nlp_make_doc_ok in E1 as (nlp' & _ & ->).
    apply bind_ok_inv in H as (gold & w2 & E2 & H).
    apply lib_ok_inv in E2 as [_ ->].
    apply bind_ok_inv in H as (rest & w3 & E3 & H).
    apply IH in E3 as [Hlen Hlog]. inversion H; subst. simpl.
    split; [by rewrite Hlen|].
    rewrite Hlog. simpl. by rewrite <- !app_assoc.
Qed.

Lemma train_batch_ok items st w st' w' :
  train_batch items st w = (Ok st', w') →
  items ≠ [] ∧
  w_log w' = w_log w ++ [EUpdate (map fst items) (map snd items)
                                 (fst st) (snd st) true (35 # 100)].
Proof.
  unfold train_batch. destruct items as [|it items]; [discriminate|].
  intros H. apply nlp_update_ok in H as (nlp' & _ & ->). done.
Qed.

(** The batches of a run of the inner loop, as the log shows them. *)
Lemma train_batches_ok bs st w st' w' :
  train_batches bs st w = (Ok st', w') →
  ∃ bvs : list batch_view,
    map (λ b, map fst (bv_items b)) bvs = bs ∧
    w_log w' = w_log w ++ flat_map batch_events bvs ∧
    match bvs with
    | b :: _ => bv_losses b = fst st
    | [] => st' = st
    end.
Proof.
  revert st w st' w'. induction bs as [|b bs IH]; intros st w st' w' H; simpl in H.
  - inversion H; subst. exists []. simpl. by rewrite app_nil_r.
  - apply bind_ok_inv in H as (items & w1 & E1 & H).
    apply gold_items_ok in E1 as [Hlen Hlog1].
    apply bind_ok_inv in H as (st1 & w2 & E2 & H).
    apply train_batch_ok in E2 as [Hne Hlog2].
    apply IH in H as (bvs & Hbs & Hlog3 & _).
    exists (MkBatchView (zip b items) (fst st) (snd st) :: bvs). simpl.
    split; [|split; [|done]].
    + f_equal; [|done]. apply fst_zip. lia.
    + rewrite Hlog3, Hlog2, Hlog1. unfold batch_events. simpl.
      rewrite <- !app_assoc. do 2 f_equal. simpl. do 2 f_equal.
      * rewrite <- (map_map snd fst), snd_zip by lia. done.
      * rewrite <- (map_map snd snd), snd_zip by lia. done.
Qed.

Lemma chunks_cut {A} fuel n (l : list A) :
  1 ≤ n → length l ≤ fuel → cut_in_batches n l (chunks fuel n l).
Proof.
  intros Hn. revert l. induction fuel as [|fuel IH]; intros l Hl.
  - destruct l; [|simpl in Hl; lia]. repeat split; [constructor | by intros [|?]].
  - destruct l as [|a l]; [repeat split; [constructor | by intros [|?]]|].
    change (chunks (S fuel) n (a :: l))
      with (take n (a :: l) :: chunks fuel n (drop n (a :: l))).
    assert (Hd : length (drop n (a :: l)) ≤ fuel)
      by (rewrite length_drop; simpl in *; lia).
    destruct (IH _ Hd) as (Hc & Hs & Hk). repeat split.
    + simpl concat. rewrite Hc. apply take_drop.
    + constructor; [|done]. rewrite length_take. simpl. lia.
    + intros [|k] b Hb Hlast; simpl in *.
      * inversion Hb; subst b. rewrite length_take. simpl.
        destruct (decide (n ≤ length l)) as [|Hgt]; [lia|].
        rewrite (drop_ge (a :: l)), chunks_nil in Hlast by (simpl; lia).
        simpl in Hlast. lia.
      * apply (Hk k); [done | lia].
Qed.

Lemma cut_in_batches_tail {A} n (l : list A) b bs :
  cut_in_batches n l (b :: bs) → cut_in_batches n (concat bs) bs.
Proof.
  intros (_ & Hs & Hk). repeat split.
  - by inversion Hs.
  - intros k b' Hb Hlast. apply (Hk (S k)); [done | simpl; lia].
Qed.

(** When [n] divides the length, every batch is full. *)
Lemma cut_in_batches_exact {A} n (l : list A) bs :
  1 ≤ n → cut_in_batches n l bs → length l mod n = 0 →
  Forall (λ b, length b = n) bs.
Proof.
  intros Hn. revert l. induction bs as [|b bs IH]; intros l Hcut Hmod; [done|].
  pose proof Hcut as (Hc & Hs & Hk).
  assert (Hb : 1 ≤ length b ≤ n) by by inversion Hs.
  simpl in Hc. subst l. rewrite length_app in Hmod.
  destruct bs as [|b' bs].
  - constructor; [|done]. simpl in Hmod. rewrite Nat.add_0_r in Hmod.
    destruct (decide (length b = n)) as [|Hne]; [done|].
    rewrite Nat.mod_small in Hmod by lia. lia.
  - assert (Hfull : length b = n) by (apply (Hk 0); [done | simpl; lia]).
    constructor; [done|].
    apply (IH (concat (b' :: bs))); [by eapply cut_in_batches_tail|].
    rewrite Hfull, Nat.add_comm in Hmod.
    rewrite <- Hmod. symmetry.
    replace n with (1 * n) at 1 by lia.
    apply Nat.Div0.mod_add.
Qed.

Lemma swap_items_ok i j w w' :
  swap_items i j w = (Ok tt, w') → w_log w' = w_log w.
Proof.
  unfold swap_items. rewrite bind_get_train_data. cbv beta.
  destruct (w_train_data w !! j); [|discriminate].
  destruct (w_train_data w !! i); [|discriminate].
  intros H. by inversion H.
Qed.

Lemma shuffle_down_ok i w w' :
  shuffle_down i w = (Ok tt, w') → w_log w' = w_log w.
Proof.
  revert w w'. induction i as [|i IH]; intros w w' H; simpl in H.
  - by inversion H.
  - apply bind_ok_inv in H as (j & w1 & E1 & H).
    inversion E1; subst; clear E1.
    apply bind_ok_inv in H as ([] & w2 & E2 & H).
    apply swap_items_ok in E2. apply IH in H. by rewrite H, E2.
Qed.

Lemma random_shuffle_ok w w' :
  random_shuffle w = (Ok tt, w') →
  w_log w' = w_log w ++ [EShuffle (w_train_data w')].
Proof.
  unfold random_shuffle. rewrite bind_get_train_data. cbv beta. intros H.
  apply bind_ok_inv in H as ([] & w1 & E1 & H).
  apply shuffle_down_ok in E1. inversion H; subst. simpl. by rewrite E1.
Qed.

Lemma same_data_train_batches bs st :
  preserves (L := L) same_data (train_batches bs st).
Proof.
  revert st. induction bs as [|b bs IH]; intros st; simpl; [frame|].
  apply preserves_bind; [apply _ | apply same_data_gold_items | intros items].
  apply preserves_bind; [apply _ | apply same_data_train_batch | intros st'].
  apply IH.
Qed.

Lemma same_data_train_batches_aux w {bs st st' w'} :
  train_batches bs st w = (Ok st', w') → w_train_data w' = w_train_data w.
Proof.
  intros H. pose proof (same_data_train_batches bs st w) as Hs.
  by rewrite H in Hs.
Qed.

(** One epoch, as the log shows it. *)
Lemma epoch_unrolled_ok optimizer w optimizer' w' :
  epoch_unrolled optimizer w = (Ok optimizer', w') →
  ∃ e : epoch_view,
    w_log w' = w_log w ++ epoch_events e ∧
    epoch_shape (w_train_data w) e ∧
    w_train_data w' ≡ₚ w_train_data w.
Proof.
  unfold epoch_unrolled. intros H.
  apply bind_ok_inv in H as ([] & w1 & E1 & H).
  pose proof (shuffled_random_shuffle w) as Hperm. rewrite E1 in Hperm.
  red in Hperm. simpl in Hperm. apply random_shuffle_ok in E1.
  rewrite bind_get_train_data in H. cbv beta in H.
  apply bind_ok_inv in H as (st & w2 & E2 & H).
  pose proof (same_data_train_batches_aux w1 E2) as Hsame.
  apply train_batches_ok in E2 as (bvs & Hbs & Hlog & Hfirst).
  inversion H; subst; clear H. simpl.
  exists (MkEpochView (w_train_data w1) bvs (fst st)). repeat split.
  - rewrite Hlog, E1. unfold epoch_events. simpl. by rewrite <- !app_assoc.
  - done.
  - simpl. rewrite Hbs. apply chunks_cut; lia.
  - simpl. rewrite Hbs. apply chunks_cut; lia.
  - simpl. rewrite Hbs. apply chunks_cut; lia.
  - simpl. destruct bvs; [by subst st | done].
  - by rewrite Hsame.
Qed.

Lemma epoch_shape_perm data data' (e : epoch_view (L := L)) :
  data ≡ₚ data' → epoch_shape data e → epoch_shape data' e.
Proof. intros Hp (H1 & H2 & H3). split; [by rewrite <- Hp | done]. Qed.

Lemma train_epoch_ok optimizer w optimizer' w' :
  train_epoch optimizer w = (Ok optimizer', w') →
  ∃ e : epoch_view,
    w_log w' = w_log w ++ epoch_events e ∧
    epoch_shape (w_train_data w) e ∧
    w_train_data w' ≡ₚ w_train_data w.
Proof. rewrite train_epoch_unrolled. apply epoch_unrolled_ok. Qed.

(** [n] epochs, as the log shows them. *)
Lemma epochs_ok n optimizer w optimizer' w' :
  for_range n train_epoch optimizer w = (Ok optimizer', w') →
  ∃ eps : list epoch_view,
    length eps = n ∧
    w_log w' = w_log w ++ flat_map epoch_events eps ∧
    Forall (epoch_shape (w_train_data w)) eps ∧
    w_train_data w' ≡ₚ w_train_data w.
Proof.
  revert optimizer w. induction n as [|n IH]; intros optimizer w H; simpl in H.
  - inversion H; subst. exists []. simpl. by rewrite app_nil_r.
  - apply bind_ok_inv in H as (opt1 & w1 & E1 & H).
    apply train_epoch_ok in E1 as (e & Hlog1 & Hshape & Hperm1).
    apply IH in H as (eps & Hlen & Hlog & Hshapes & Hperm).
    exists (e :: eps). simpl. repeat split.
    + by rewrite Hlen.
    + by rewrite Hlog, Hlog1, <- app_assoc.
    + constructor; [done|].
      eapply Forall_impl; [exact Hshapes|]. intros e'.
      by apply epoch_shape_perm.
    + by rewrite Hperm.
Qed.

Lemma train_ner_begins output_dir w optimizer nlp1 :
  begin_training L (w_nlp w) = Returns (optimizer, nlp1) →
  train_ner output_dir w
  = bind (for_range 50 train_epoch optimizer) (λ _, save_model output_dir)
         (loop_entry w nlp1).
Proof.
  intros H. unfold train_ner.
  generalize (for_range (S := Optimizer L) 50 train_epoch). intros loop.
  cbn [bind random_seed emit set_random get_nlp w_nlp].
  rewrite H. cbn [w_train_data w_fs w_log]. unfold bind at 1.
  rewrite lib_returns.
  cbn [bind set_meta set_nlp get_nlp w_nlp w_random w_train_data w_fs w_log fst snd].
  unfold loop_entry. by rewrite <- app_assoc.
Qed.

Lemma train_ner_aborts output_dir w e :
  begin_training L (w_nlp w) = Raises e →
  train_ner output_dir w
  = (Raise (LibError e),
     MkWorld (seed L 0) (w_nlp w) (w_train_data w) (w_fs w)
       (w_log w ++ [ESeed 0; EBeginTraining (w_nlp w); ERaise (LibError e)])).
Proof.
  intros H. unfold train_ner.
  generalize (for_range (S := Optimizer L) 50 train_epoch). intros loop.
  cbn [bind random_seed emit set_random get_nlp w_nlp].
  rewrite H. cbn [w_train_data w_fs w_log]. unfold bind at 1.
  rewrite lib_raises.
  cbn [w_random w_nlp w_train_data w_fs w_log]. by rewrite <- app_assoc.
Qed.

End Returns.

(** ** Training stays off the disk *)

Section Offline.
Context {L : Library}.
Implicit Types w : World L.

Lemma offline_prim {A} (f : Rng L → Nlp L → list Example → A * (Rng L * Nlp L * list Example)) :
  offline (L := L)
    (λ w, let r := f (w_random w) (w_nlp w) (w_train_data w) in
          (Ok (fst r), MkWorld (fst (fst (snd r))) (snd (fst (snd r))) (snd (snd r))
                               (w_fs w) (w_log w))).
Proof. intros w. exists []. intros fs lg. simpl. by rewrite app_nil_r. Qed.

Lemma offline_ret {A} (a : A) : offline (L := L) (ret a).
Proof. intros w. exists []. intros fs lg. simpl. by rewrite app_nil_r. Qed.

Lemma offline_emit ev : offline (L := L) (emit ev).
Proof. intros w. exists [ev]. intros fs lg. done. Qed.

Lemma offline_raise {A} e : offline (@raise L A e).
Proof. intros w. exists [ERaise e]. intros fs lg. done. Qed.

Lemma offline_bind {A B} (m : M L A) (k : A → M L B) :
  offline m → (∀ a, offline (k a)) → offline (bind m k).
Proof.
  intros Hm Hk w. destruct (Hm w) as [evs1 H1]. unfold bind.
  destruct (m w) as [o w1]. simpl in H1. destruct o as [a|e|].
  - destruct (Hk a w1) as [evs2 H2]. exists (evs1 ++ evs2). intros fs lg.
    rewrite H1, H2. by rewrite app_assoc.
  - exists evs1. intros fs lg. by rewrite H1.
  - exists evs1. intros fs lg. by rewrite H1.
Qed.

Lemma offline_lib {A} ev (a : answer (LibExn L) A) : offline (lib ev a).
Proof.
  unfold lib. apply offline_bind; [apply offline_emit|].
  intros _. destruct a; [apply offline_ret | apply offline_raise].
Qed.

Lemma offline_ext {A} (m m' : M L A) :
  (∀ w, m w = m' w) → offline m' → offline m.
Proof.
  intros H Hm w. destruct (Hm w) as [evs H1]. exists evs. intros fs lg.
  by rewrite !H, H1.
Qed.

Lemma offline_get_nlp : offline (L := L) get_nlp.
Proof. apply (offline_prim (λ r n d, (n, (r, n, d)))). Qed.
Lemma offline_set_nlp nlp : offline (L := L) (set_nlp nlp).
Proof. apply (offline_prim (λ r n d, (tt, (r, nlp, d)))). Qed.
Lemma offline_get_train_data : offline (L := L) get_train_data.
Proof. apply (offline_prim (λ r n d, (d, (r, n, d)))). Qed.
Lemma offline_set_train_data x : offline (L := L) (set_train_data x).
Proof. apply (offline_prim (λ r n d, (tt, (r, n, x)))). Qed.
Lemma offline_get_random : offline (L := L) get_random.
Proof. apply (offline_prim (λ r n d, (r, (r, n, d)))). Qed.
Lemma offline_set_random r' : offline (L := L) (set_random r').
Proof. apply (offline_prim (λ r n d, (tt, (r', n, d)))). Qed.

End Offline.

Create HintDb offline_db.
#[export] Hint Resolve offline_ret offline_emit offline_raise offline_bind
  offline_lib offline_get_nlp offline_set_nlp offline_get_train_data
  offline_set_train_data offline_get_random offline_set_random : offline_db.

Section OfflineScript.
Context {L : Library}.
Implicit Types w : World L.

Lemma offline_random_seed a : offline (L := L) (random_seed a).
Proof. unfold random_seed. eauto with offline_db. Qed.

Lemma offline_randbelow n : offline (L := L) (random_randbelow n).
Proof. unfold random_randbelow. eauto 10 with offline_db. Qed.

Lemma offline_swap_items i j : offline (L := L) (swap_items i j).
Proof.
  unfold swap_items. apply offline_bind; [eauto with offline_db|].
  intros x. destruct (x !! j); [destruct (x !! i)|]; eauto with offline_db.
Qed.

Lemma offline_shuffle_down i : offline (L := L) (shuffle_down i).
Proof.
  induction i; simpl; eauto 10 using offline_randbelow, offline_swap_items with offline_db.
Qed.

Lemma offline_random_shuffle : offline (L := L) random_shuffle.
Proof. unfold random_shuffle. eauto 10 using offline_shuffle_down with offline_db. Qed.

Lemma offline_make_doc t : offline (L := L) (nlp_make_doc t).
Proof. unfold nlp_make_doc. eauto 10 with offline_db. Qed.

Lemma offline_gold_items xs : offline (L := L) (gold_items xs).
Proof. induction xs; simpl; eauto 10 using offline_make_doc with offline_db. Qed.

Lemma offline_update docs golds losses sgd us drop :
  offline (L := L) (nlp_update docs golds losses sgd us drop).
Proof. unfold nlp_update. eauto 10 with offline_db. Qed.

Lemma offline_train_batch b st : offline (L := L) (train_batch b st).
Proof. unfold train_batch. destruct b; eauto using offline_update with offline_db. Qed.

Lemma offline_train_batches bs st : offline (L := L) (train_batches bs st).
Proof.
  revert st. induction bs; intros st; simpl;
    eauto 10 using offline_gold_items, offline_train_batch with offline_db.
Qed.

Lemma offline_train_epoch optimizer : offline (L := L) (train_epoch optimizer).
Proof.
  apply (offline_ext _ _ (train_epoch_unrolled optimizer)). unfold epoch_unrolled.
  eauto 10 using offline_random_shuffle, offline_train_batches with offline_db.
Qed.

Lemma offline_for_range {S} n (body : S → M L S) s :
  (∀ s, offline (body s)) → offline (for_range n body s).
Proof. intros H. revert s. induction n; intros s; simpl; eauto with offline_db. Qed.

Lemma offline_set_meta k v : offline (L := L) (set_meta k v).
Proof. unfold set_meta. eauto with offline_db. Qed.

(** Without an output directory [train_ner] is the training alone. *)
Lemma offline_train_ner : offline (L := L) (train_ner PNone).
Proof.
  unfold train_ner.
  apply offline_bind; [apply offline_random_seed | intros _].
  apply offline_bind; [apply offline_get_nlp | intros nlp].
  apply offline_bind; [apply offline_lib | intros r].
  apply offline_bind; [apply offline_set_nlp | intros _].
  apply offline_bind; [apply offline_set_meta | intros _].
  apply offline_bind; [|intros _; apply offline_ret].
  apply offline_for_range, offline_train_epoch.
Qed.

End OfflineScript.

(** ** [train_ner]: training, then saving *)

Section TrainNer.
Context {L : Library}.
Implicit Types w : World L.

Lemma propagates_train_epoch optimizer : propagates (L := L) (train_epoch optimizer).
Proof.
  apply (propagates_ext _ _ (train_epoch_unrolled optimizer)).
  apply propagates_epoch_unrolled.
Qed.

Lemma propagates_train_ner output_dir : propagates (L := L) (train_ner output_dir).
Proof.
  unfold train_ner.
  apply propagates_bind; [apply propagates_random_seed | intros _].
  apply propagates_bind; [eauto with prop_db | intros nlp].
  apply propagates_bind; [eauto with prop_db | intros r].
  apply propagates_bind; [eauto with prop_db | intros _].
  apply propagates_bind; [apply propagates_set_meta | intros _].
  apply propagates_bind; [|intros _; apply propagates_save_model].
  apply propagates_for_range, propagates_train_epoch.
Qed.

Lemma propagates_test_entity output_directory :
  propagates (L := L) (test_entity output_directory).
Proof.
  unfold test_entity.
  apply propagates_bind; [eauto with prop_db | intros _].
  apply propagates_bind; [eauto with prop_db | intros nlp3].
  apply propagates_bind; [eauto with prop_db | intros r].
  apply propagates_bind; [eauto with prop_db | intros _].
  apply propagates_bind; [apply propagates_print_ents | intros _].
  destruct output_directory; [|eauto with prop_db].
  apply propagates_bind; [eauto with prop_db | intros _].
  apply propagates_bind; [eauto with prop_db | intros fs].
  apply propagates_bind; [eauto with prop_db | intros nlp4].
  apply propagates_bind; [eauto with prop_db | intros r2].
  apply propagates_print_ents.
Qed.

Lemma propagates_main model_name output_directory :
  propagates (L := L) (main model_name output_directory).
Proof.
  unfold main.
  apply propagates_bind; [eauto with prop_db | intros _].
  apply propagates_bind; [eauto with prop_db | intros nlp].
  apply propagates_bind; [eauto with prop_db | intros _].
  apply propagates_bind; [eauto with prop_db | intros _].
  apply propagates_bind; [eauto with prop_db | intros nlp1].
  apply propagates_bind; [eauto with prop_db | intros tve].
  apply propagates_bind; [apply propagates_pipeline_append | intros _].
  apply propagates_bind; [eauto with prop_db | intros nlp2].
  apply propagates_bind; [eauto with prop_db | intros ner].
  apply propagates_bind; [apply propagates_pipeline_append | intros _].
  apply propagates_bind; [apply propagates_add_label | intros _].
  apply propagates_bind; [apply propagates_train_ner | intros _].
  apply propagates_test_entity.
Qed.

Lemma get_fs_inv w a w' : get_fs w = (Ok a, w') → a = w_fs w ∧ w' = w.
Proof. intros H. by inversion H. Qed.

Lemma get_nlp_inv w a w' : get_nlp w = (Ok a, w') → a = w_nlp w ∧ w' = w.
Proof. intros H. by inversion H. Qed.

Lemma save_model_falsy (output_dir : pyarg L) w :
  truthy output_dir = false → save_model output_dir w = (Ok tt, w).
Proof. intros H. unfold save_model. by rewrite H. Qed.

(** Saving to a path, when it returns. *)
Lemma save_model_path_ok p w w' :
  save_model (PPath p) w = (Ok tt, w') →
  ∃ (b : bool) fs1 fs2,
    path_exists L p (w_fs w) = Returns b ∧
    (if b then fs1 = w_fs w else path_mkdir L p (w_fs w) = Returns fs1) ∧
    to_disk L (w_nlp w) p fs1 = Returns fs2 ∧
    w' = MkWorld (w_random w) (w_nlp w) (w_train_data w) fs2
           (w_log w ++ EExists p :: (if b then [] else [EMkdir p]) ++ [EToDisk p]).
Proof.
  unfold save_model. cbn [truthy negb]. intros H.
  apply bind_ok_inv in H as (fs & w0 & [-> ->]%get_fs_inv & H).
  apply bind_ok_inv in H as (b & w1 & E1 & H).
  apply lib_ok_inv in E1 as [E1 ->].
  apply bind_ok_inv in H as ([] & w2 & E2 & H).
  exists b. destruct b; simpl in E2.
  - inversion E2; subst w2; clear E2.
    apply bind_ok_inv in H as (nlp & w0 & [-> ->]%get_nlp_inv & H).
    apply bind_ok_inv in H as (fs & w0 & [-> ->]%get_fs_inv & H).
    apply bind_ok_inv in H as (fs2 & w3 & E3 & H).
    apply lib_ok_inv in E3 as [E3 ->]. inversion H; subst w'; clear H.
    simpl in *. exists (w_fs w), fs2. repeat split; try done.
    by rewrite <- app_assoc.
  - apply bind_ok_inv in E2 as (fs & w0 & [-> ->]%get_fs_inv & E2).
    apply bind_ok_inv in E2 as (fs1 & w3 & E3 & E2).
    apply lib_ok_inv in E3 as [E3 ->]. inversion E2; subst w2; clear E2.
    apply bind_ok_inv in H as (nlp & w0 & [-> ->]%get_nlp_inv & H).
    apply bind_ok_inv in H as (fs & w0 & [-> ->]%get_fs_inv & H).
    apply bind_ok_inv in H as (fs2 & w4 & E4 & H).
    apply lib_ok_inv in E4 as [E4 ->]. inversion H; subst w'; clear H.
    simpl in *. exists fs1, fs2. repeat split; try done.
    by rewrite <- !app_assoc.
Qed.

(** What saving logs is not training, and touches only the path given. *)
Lemma save_model_events output_dir w r w' :
  save_model output_dir w = (r, w') →
  ∃ evs,
    w_log w' = w_log w ++ evs ∧
    Forall (λ ev, training_event ev = false) evs ∧
    Forall (λ ev, ∀ p, event_path ev = Some p → output_dir = PPath p) evs ∧
    w_train_data w' = w_train_data w ∧
    w_nlp w' = w_nlp w.
Proof.
  assert (Hnil : ∀ w0 : World L, w_log w0 = w_log w0 ++ [])
    by (intros; by rewrite app_nil_r).
  unfold save_model, truthy. intros H.
  destruct output_dir as [|s|p].
  - inversion H; subst. exists []. by repeat split.
  - destruct (String.eqb s ""); inversion H; subst.
    + exists []. by repeat split.
    + eexists. split; [done|].
      repeat split; repeat constructor; simpl; congruence.
  - destruct w as [rg n d f lg].
    cbv [negb bind lib emit raise ret get_fs get_nlp set_fs
           w_fs w_nlp w_random w_train_data w_log] in H.
    destruct (path_exists L p f) as [[|]|e]; cbv beta iota in H.
    + destruct (to_disk L n p f) as [fs2|e];
        inversion H; subst; simpl;
        (eexists; split; [rewrite <- ?app_assoc; reflexivity|]);
        repeat split; repeat constructor; simpl; congruence.
    + destruct (path_mkdir L p f) as [fs1|e]; cbv beta iota in H.
      * destruct (to_disk L n p fs1) as [fs2|e];
          inversion H; subst; simpl;
          (eexists; split; [rewrite <- ?app_assoc; reflexivity|]);
          repeat split; repeat constructor; simpl; congruence.
      * inversion H; subst; simpl.
        eexists; split; [rewrite <- ?app_assoc; reflexivity|].
        repeat split; repeat constructor; simpl; congruence.
    + inversion H; subst; simpl.
      eexists; split; [rewrite <- ?app_assoc; reflexivity|].
      repeat split; repeat constructor; simpl; congruence.
Qed.

(** [train_ner] is the training, which is [train_ner] without an output
    directory, followed by the saving. *)
Lemma train_ner_split output_dir w :
  train_ner output_dir w = bind (train_ner PNone) (λ _, save_model output_dir) w.
Proof.
  destruct (begin_training L (w_nlp w)) as [[optimizer nlp1]|e] eqn:E.
  - rewrite (train_ner_begins output_dir w _ _ E).
    pose proof (train_ner_begins PNone w _ _ E) as HN.
    destruct (for_range 50 train_epoch optimizer (loop_entry w nlp1))
      as [o w2] eqn:EL.
    rewrite (bind_run _ _ _ _ _ EL) in HN. rewrite (bind_run _ _ _ _ _ EL).
    destruct o; by rewrite (bind_run _ _ _ _ _ HN).
  - rewrite (train_ner_aborts output_dir w _ E).
    by rewrite (bind_run _ _ _ _ _ (train_ner_aborts PNone w _ E)).
Qed.

(** The generator state [train_ner] starts from is of no consequence. *)
Lemma train_ner_reseed output_dir w r :
  train_ner output_dir
    (MkWorld r (w_nlp w) (w_train_data w) (w_fs w) (w_log w))
  = train_ner output_dir w.
Proof.
  destruct (begin_training L (w_nlp w)) as [[optimizer nlp1]|e] eqn:E.
  - by rewrite (train_ner_begins output_dir w _ _ E),
      (train_ner_begins output_dir (MkWorld r _ _ _ _) _ _ E).
  - by rewrite (train_ner_aborts output_dir w _ E),
      (train_ner_aborts output_dir (MkWorld r _ _ _ _) _ E).
Qed.

(** The training as a function of the pipeline and the data: its outcome,
    its events and the state it leaves. *)
Lemma training_determined w1 w2 :
  w_nlp w1 = w_nlp w2 → w_train_data w1 = w_train_data w2 →
  ∃ evs,
    fst (train_ner PNone w1) = fst (train_ner PNone w2) ∧
    w_log (snd (train_ner PNone w1)) = w_log w1 ++ evs ∧
    w_log (snd (train_ner PNone w2)) = w_log w2 ++ evs ∧
    w_fs (snd (train_ner PNone w1)) = w_fs w1 ∧
    w_fs (snd (train_ner PNone w2)) = w_fs w2.
Proof.
  intros Hn Hd. destruct (offline_train_ner w1) as [evs H].
  exists evs. destruct w1 as [r1 n1 d1 f1 l1], w2 as [r2 n2 d2 f2 l2].
  simpl in *. subst n2 d2.
  pose proof (H f1 l1) as H1. pose proof (H f2 l2) as H2.
  rewrite <- (train_ner_reseed PNone (MkWorld r2 n1 d1 f2 l2) r1).
  simpl. rewrite H2. rewrite H1. simpl. done.
Qed.

End TrainNer.

(** ** What a run may log *)

Section LogAdds.
Context {L : Library}.
Implicit Types w : World L.

#[export] Instance log_adds_po (P : Event L → Prop) : PreOrder (log_adds P).
Proof.
  split.
  - intros w. exists []. by rewrite app_nil_r.
  - intros w1 w2 w3 (evs1 & H1 & HP1) (evs2 & H2 & HP2).
    exists (evs1 ++ evs2). rewrite H2, H1, app_assoc. split; [done|].
    by apply Forall_app.
Qed.

Lemma log_adds_weaken (P Q : Event L → Prop) w w' :
  (∀ ev, P ev → Q ev) → log_adds P w w' → log_adds Q w w'.
Proof.
  intros H (evs & Hl & HP). exists evs. split; [done|].
  eapply Forall_impl; eauto.
Qed.

Lemma log_adds_events {A} (P : Event L → Prop) (m : M L A) w :
  preserves (log_adds P) m → Forall P (events_of m w).
Proof.
  intros H. destruct (H w) as (evs & Hl & HP). unfold events_of.
  by rewrite Hl, drop_app_length.
Qed.

Lemma log_adds_same {A} (P : Event L → Prop) (m : M L A) :
  (∀ w, w_log (snd (m w)) = w_log w) → preserves (log_adds P) m.
Proof. intros H w. exists []. by rewrite H, app_nil_r. Qed.

Lemma log_adds_emit (P : Event L → Prop) ev :
  P ev → preserves (log_adds P) (emit ev).
Proof. intros H w. exists [ev]. split; [done | by constructor]. Qed.

Lemma log_adds_raise {A} (P : Event L → Prop) e :
  P (ERaise e) → preserves (log_adds P) (@raise L A e).
Proof. intros H w. exists [ERaise e]. split; [done | by constructor]. Qed.

Lemma log_adds_lib {A} (P : Event L → Prop) ev (a : answer (LibExn L) A) :
  P ev → (∀ e, P (ERaise e)) → preserves (log_adds P) (lib ev a).
Proof.
  intros H1 H2. unfold lib. apply preserves_bind; [apply _ | by apply log_adds_emit |].
  intros _. destruct a; [apply preserves_ret, _ | by apply log_adds_raise].
Qed.

End LogAdds.

(** [logs tac] proves [preserves (log_adds P) m] for a straight-line [m];
    [tac] shows that an event is of the kind [P]. *)
Ltac logs tac :=
  repeat first
    [ apply preserves_ret; apply _
    | apply log_adds_lib; [tac | intros ?; tac]
    | apply log_adds_emit; tac
    | apply log_adds_raise; tac
    | apply preserves_bind; [apply _ | | intros ?]
    | apply log_adds_same; intros ?; reflexivity ].

Section LogAddsScript.
Context {L : Library}.
Implicit Types w : World L.

Context (P : Event L → Prop).
Context (HP : ∀ ev, train_ner_event ev = true → P ev).

Lemma logs_randbelow n : preserves (log_adds P) (random_randbelow n).
Proof. unfold random_randbelow. logs idtac. Qed.

Lemma logs_swap_items i j : preserves (log_adds P) (swap_items i j).
Proof.
  unfold swap_items. apply preserves_bind; [apply _ | logs idtac | intros x].
  destruct (x !! j); [destruct (x !! i)|]; logs ltac:(by apply HP).
Qed.

Lemma logs_shuffle_down i : preserves (log_adds P) (shuffle_down i).
Proof.
  induction i as [|i IH]; simpl; [logs idtac|].
  apply preserves_bind; [apply _ | apply logs_randbelow | intros j].
  apply preserves_bind; [apply _ | apply logs_swap_items | intros _]. apply IH.
Qed.

Lemma logs_random_shuffle : preserves (log_adds P) random_shuffle.
Proof.
  unfold random_shuffle. apply preserves_bind; [apply _ | logs idtac | intros x].
  apply preserves_bind; [apply _ | apply logs_shuffle_down | intros _].
  logs ltac:(by apply HP).
Qed.

Lemma logs_make_doc t : preserves (log_adds P) (nlp_make_doc t).
Proof. unfold nlp_make_doc. logs ltac:(by apply HP). Qed.

Lemma logs_gold_items xs : preserves (log_adds P) (gold_items xs).
Proof.
  induction xs as [|ex xs IH]; simpl; [logs idtac|].
  apply preserves_bind; [apply _ | apply logs_make_doc | intros doc].
  apply preserves_bind; [apply _ | logs ltac:(by apply HP) | intros gold].
  apply preserves_bind; [apply _ | apply IH | intros rest]. logs idtac.
Qed.

Lemma logs_train_batch b st : preserves (log_adds P) (train_batch b st).
Proof.
  unfold train_batch, nlp_update. destruct b; logs ltac:(by apply HP).
Qed.

Lemma logs_train_batches bs st : preserves (log_adds P) (train_batches bs st).
Proof.
  revert st. induction bs as [|b bs IH]; intros st; simpl; [logs idtac|].
  apply preserves_bind; [apply _ | apply logs_gold_items | intros items].
  apply preserves_bind; [apply _ | apply logs_train_batch | intros st'].
  apply IH.
Qed.

Lemma logs_train_epoch optimizer : preserves (log_adds P) (train_epoch optimizer).
Proof.
  apply (preserves_ext _ _ _ (train_epoch_unrolled optimizer)).
  unfold epoch_unrolled.
  apply preserves_bind; [apply _ | apply logs_random_shuffle | intros _].
  apply preserves_bind; [apply _ | logs idtac | intros x].
  apply preserves_bind; [apply _ | apply logs_train_batches | intros st].
  logs ltac:(by apply HP).
Qed.

Lemma preserves_for_range {S} (R : relation (World L)) `{!PreOrder R} n
    (body : S → M L S) s :
  (∀ s, preserves R (body s)) → preserves R (for_range n body s).
Proof.
  intros H. revert s. induction n as [|n IH]; intros s; simpl.
  - apply preserves_ret, _.
  - apply preserves_bind; [apply _ | apply H | apply IH].
Qed.

Lemma preserves_for_list {A} (R : relation (World L)) `{!PreOrder R}
    (xs : list A) (body : A → M L unit) :
  (∀ x, preserves R (body x)) → preserves R (for_list xs body).
Proof.
  intros H. induction xs as [|x xs IH]; simpl.
  - apply preserves_ret, _.
  - apply preserves_bind; [apply _ | apply H | intros _; apply IH].
Qed.

Lemma logs_training : preserves (log_adds P) (train_ner PNone).
Proof.
  unfold train_ner.
  apply preserves_bind; [apply _ | unfold random_seed; logs ltac:(by apply HP) | intros _].
  apply preserves_bind; [apply _ | logs idtac | intros nlp].
  apply preserves_bind; [apply _ | logs ltac:(by apply HP) | intros r].
  apply preserves_bind; [apply _ | logs idtac | intros _].
  apply preserves_bind; [apply _ | unfold set_meta; logs idtac | intros _].
  apply preserves_bind; [apply _ | | intros _; apply preserves_ret, _].
  apply preserves_for_range; [apply _|]. apply logs_train_epoch.
Qed.

End LogAddsScript.

Section LogAddsMain.
Context {L : Library}.
Implicit Types w : World L.

Lemma logs_save_model (output_dir : pyarg L) :
  preserves (log_adds (train_ner_logs output_dir)) (save_model output_dir).
Proof.
  unfold save_model. destruct output_dir as [|s|p]; cbn [truthy negb].
  - logs idtac.
  - destruct (negb (negb (String.eqb s ""))); logs ltac:(done).
  - apply preserves_bind; [apply _ | logs idtac | intros fs].
    apply preserves_bind; [apply _ | logs ltac:(done) | intros e].
    apply preserves_bind; [apply _ | destruct (negb e); logs ltac:(done) | intros _].
    logs ltac:(done).
Qed.

Lemma logs_train_ner (output_dir : pyarg L) :
  preserves (log_adds (train_ner_logs output_dir)) (train_ner output_dir).
Proof.
  apply (preserves_ext _ _ _ (train_ner_split output_dir)).
  apply preserves_bind; [apply _ | | intros _; apply logs_save_model].
  apply logs_training. intros ev H. by destruct ev.
Qed.

Lemma train_ner_logs_main output_directory (ev : Event L) :
  train_ner_logs (match output_directory with
                  | Some d => PPath (mkPath L d)
                  | None => PNone
                  end) ev →
  main_logs output_directory ev.
Proof.
  destruct output_directory as [d|]; destruct ev; simpl; try done;
    intros [= <-]; eauto.
Qed.

Lemma logs_print_ents P doc :
  (∀ s, P (EPrint s)) → preserves (L := L) (log_adds P) (print_ents doc).
Proof.
  intros H. unfold print_ents. apply preserves_for_list; [apply _|].
  intros ent. logs ltac:(apply H).
Qed.

Lemma logs_main model_name output_directory :
  preserves (L := L) (log_adds (main_logs output_directory))
    (main model_name output_directory).
Proof.
  unfold main.
  apply preserves_bind; [apply _ | logs ltac:(done) | intros _].
  apply preserves_bind; [apply _ | logs ltac:(done) | intros nlp].
  apply preserves_bind; [apply _ | logs idtac | intros _].
  apply preserves_bind; [apply _ | logs idtac | intros _].
  apply preserves_bind; [apply _ | logs idtac | intros nlp1].
  apply preserves_bind; [apply _ | logs ltac:(done) | intros tve].
  apply preserves_bind; [apply _ | unfold pipeline_append; logs idtac | intros _].
  apply preserves_bind; [apply _ | logs idtac | intros nlp2].
  apply preserves_bind; [apply _ | logs ltac:(done) | intros ner].
  apply preserves_bind; [apply _ | unfold pipeline_append; logs idtac | intros _].
  apply preserves_bind; [apply _ | | intros _].
  { unfold pipeline_last_add_label.
    apply preserves_bind; [apply _ | logs idtac | intros nlp3].
    destruct (last (pipeline nlp3)); logs ltac:(done). }
  apply preserves_bind; [apply _ | | intros _].
  { intros w. destruct output_directory as [d|];
      (eapply log_adds_weaken; [|apply logs_train_ner]);
      [apply (train_ner_logs_main (Some d)) | apply (train_ner_logs_main None)]. }
  unfold test_entity.
  apply preserves_bind; [apply _ | logs ltac:(done) | intros _].
  apply preserves_bind; [apply _ | logs idtac | intros nlp3].
  apply preserves_bind; [apply _ | logs ltac:(done) | intros r].
  apply preserves_bind; [apply _ | logs idtac | intros _].
  apply preserves_bind; [apply _ | by apply logs_print_ents | intros _].
  destruct output_directory as [d|]; [|logs idtac].
  apply preserves_bind; [apply _ | logs ltac:(done) | intros _].
  apply preserves_bind; [apply _ | logs idtac | intros fs].
  apply preserves_bind; [apply _ | logs ltac:(simpl; eauto) | intros nlp4].
  apply preserves_bind; [apply _ | logs ltac:(done) | intros r2].
  by apply logs_print_ents.
Qed.

End LogAddsMain.

(** ** [main]: building the pipeline, training, testing *)

Section Main.
Context {L : Library}.
Implicit Types w : World L.

Lemma insert_last_snoc {A} (l : list A) x y :
  <[length (l ++ [x]) - 1 := y]> (l ++ [x]) = l ++ [y].
Proof.
  rewrite length_app. simpl.
  replace (length l + 1 - 1) with (length l + 0) by lia.
  by rewrite insert_app_r.
Qed.

Lemma add_label_run label w l c c' :
  pipeline (w_nlp w) = l ++ [c] →
  add_label L c label = Returns c' →
  pipeline_last_add_label label w
  = (Ok tt,
     MkWorld (w_random w)
       (MkLanguage (vocab (w_nlp w)) (l ++ [c']) (meta (w_nlp w)))
       (w_train_data w) (w_fs w) (w_log w ++ [EAddLabel label])).
Proof.
  intros Hp Ha. unfold pipeline_last_add_label.
  rewrite (bind_run _ _ _ _ _ (eq_refl : get_nlp w = (Ok (w_nlp w), w))).
  rewrite Hp, last_snoc, Ha.
  rewrite (bind_run _ _ _ _ _ (lib_returns _ _ _)).
  cbn [bind get_nlp set_nlp w_nlp w_random w_train_data w_fs w_log vocab meta pipeline].
  by rewrite Hp, insert_last_snoc.
Qed.

Lemma main_begins model_name output_directory w nlp0 tve ner ner' :
  blank L model_name = Returns nlp0 →
  TokenVectorEncoder L (vocab nlp0) = Returns tve →
  NeuralEntityRecognizer L (vocab nlp0) = Returns ner →
  add_label L ner "ANIMAL" = Returns ner' →
  main model_name output_directory w
  = bind (train_ner (as_pyarg output_directory))
         (λ _, test_entity (mkPath L <$> output_directory))
         (train_entry w model_name nlp0 tve ner').
Proof.
  intros H1 H2 H3 H4. destruct w as [rg n d f lg].
  unfold main. rewrite H1.
  cbn [bind print emit raise ret lib get_nlp set_nlp set_train_data
       pipeline_append vocab pipeline meta
       w_random w_nlp w_train_data w_fs w_log].
  rewrite H2.
  cbn [bind print emit raise ret lib get_nlp set_nlp set_train_data
       pipeline_append vocab pipeline meta
       w_random w_nlp w_train_data w_fs w_log].
  rewrite H3.
  cbn [bind print emit raise ret lib get_nlp set_nlp set_train_data
       pipeline_append vocab pipeline meta
       w_random w_nlp w_train_data w_fs w_log].
  erewrite bind_run by (by apply (add_label_run _ _ (pipeline nlp0 ++ [tve]) ner ner')).
  unfold train_entry, built_pipeline, setup_events, as_pyarg.
  cbn [w_random w_nlp w_train_data w_fs w_log vocab pipeline meta].
  rewrite <- !app_assoc. simpl app.
  by destruct output_directory.
Qed.

End Main.

(** ** The shuffled orders depend on the seed and the data alone *)

Section Orders.
Context {L : Library}.
Implicit Types w : World L.

Lemma events_of_app {A} (m : M L A) w evs :
  w_log (snd (m w)) = w_log w ++ evs → events_of m w = evs.
Proof. intros H. unfold events_of. by rewrite H, drop_app_length. Qed.

Lemma data_only_prim {A}
    (f : Rng L → list Example → A * (Rng L * list Example)) :
  data_only (L := L)
    (λ w, let r := f (w_random w) (w_train_data w) in
          (Ok (fst r), MkWorld (fst (snd r)) (w_nlp w) (snd (snd r))
                               (w_fs w) (w_log w))).
Proof. intros w. exists []. intros nlp fs lg. simpl. by rewrite app_nil_r. Qed.

Lemma data_only_ret {A} (a : A) : data_only (L := L) (ret a).
Proof. intros w. exists []. intros nlp fs lg. simpl. by rewrite app_nil_r. Qed.

Lemma data_only_emit ev : data_only (L := L) (emit ev).
Proof. intros w. exists [ev]. intros nlp fs lg. done. Qed.

Lemma data_only_raise {A} e : data_only (@raise L A e).
Proof. intros w. exists [ERaise e]. intros nlp fs lg. done. Qed.

Lemma data_only_bind {A B} (m : M L A) (k : A → M L B) :
  data_only m → (∀ a, data_only (k a)) → data_only (bind m k).
Proof.
  intros Hm Hk w. destruct (Hm w) as [evs1 H1]. unfold bind.
  destruct (m w) as [o w1]. simpl in H1. destruct o as [a|e|].
  - destruct (Hk a w1) as [evs2 H2]. exists (evs1 ++ evs2). intros nlp fs lg.
    rewrite H1, H2. by rewrite app_assoc.
  - exists evs1. intros nlp fs lg. by rewrite H1.
  - exists evs1. intros nlp fs lg. by rewrite H1.
Qed.

Lemma data_only_swap_items i j : data_only (L := L) (swap_items i j).
Proof.
  unfold swap_items.
  apply data_only_bind; [apply (data_only_prim (λ r d, (d, (r, d))))|].
  intros x. destruct (x !! j); [destruct (x !! i)|];
    [|apply data_only_raise..].
  apply (data_only_prim (λ r d, (tt, (r, _)))).
Qed.

Lemma data_only_randbelow n : data_only (L := L) (random_randbelow n).
Proof.
  unfold random_randbelow.
  apply data_only_bind; [apply (data_only_prim (λ r d, (r, (r, d))))|].
  intros r. apply data_only_bind; [|intros _; apply data_only_ret].
  apply (data_only_prim (λ _ d, (tt, (_, d)))).
Qed.

Lemma data_only_shuffle_down i : data_only (L := L) (shuffle_down i).
Proof.
  induction i as [|i IH]; simpl; [apply data_only_ret|].
  apply data_only_bind; [apply data_only_randbelow | intros j].
  apply data_only_bind; [apply data_only_swap_items | intros _; apply IH].
Qed.

Lemma data_only_random_shuffle : data_only (L := L) random_shuffle.
Proof.
  unfold random_shuffle.
  apply data_only_bind; [apply (data_only_prim (λ r d, (d, (r, d))))|].
  intros x. apply data_only_bind; [apply data_only_shuffle_down | intros _].
  apply data_only_bind; [apply (data_only_prim (λ r d, (d, (r, d))))|].
  intros x'. apply data_only_emit.
Qed.

(** Two shuffles from the same generator state and the same list end
    alike. *)
Lemma shuffle_determined w1 w2 w1' w2' :
  w_random w1 = w_random w2 → w_train_data w1 = w_train_data w2 →
  random_shuffle w1 = (Ok tt, w1') → random_shuffle w2 = (Ok tt, w2') →
  w_random w1' = w_random w2' ∧ w_train_data w1' = w_train_data w2'.
Proof.
  intros Hr Hd E1 E2. destruct (data_only_random_shuffle w1) as [evs H].
  destruct w1 as [r1 n1 d1 f1 l1], w2 as [r2 n2 d2 f2 l2]. simpl in *.
  subst r2 d2. rewrite (H n2 f2 l2), E1 in E2. by inversion E2.
Qed.

Lemma same_random_train_batches bs st :
  preserves (L := L) same_random (train_batches bs st).
Proof.
  revert st. induction bs as [|b bs IH]; intros st; simpl; [frame|].
  apply preserves_bind; [apply _ | | intros items].
  { induction b as [|ex b IHb]; simpl; [frame|].
    apply preserves_bind; [apply _ | unfold nlp_make_doc; frame | intros doc].
    apply preserves_bind; [apply _ | frame | intros gold].
    apply preserves_bind; [apply _ | apply IHb | intros rest]. frame. }
  apply preserves_bind; [apply _ | | intros st'; apply IH].
  unfold train_batch, nlp_update. destruct items; frame.
Qed.

Lemma orders_app (l1 l2 : list (Event L)) : orders (l1 ++ l2) = orders l1 ++ orders l2.
Proof. apply filter_app. Qed.

Lemma orders_not_training (evs : list (Event L)) :
  Forall (λ ev, training_event ev = false) evs → orders evs = [].
Proof.
  induction 1 as [|ev evs H _ IH]; [done|].
  unfold orders in *. rewrite filter_cons, IH.
  case_decide as Hs; [|done]. by destruct ev.
Qed.

Lemma orders_batch_events (bvs : list (batch_view (L := L))) :
  orders (flat_map batch_events bvs) = [].
Proof.
  induction bvs as [|b bvs IH]; [done|]. simpl. rewrite !orders_app, IH.
  unfold batch_events. rewrite orders_app.
  by induction (bv_items b) as [|it its IHi].
Qed.

(** An epoch that returns: one shuffle, whose order is logged; the
    generator and the list are then left as the shuffle left them. *)
Lemma train_epoch_orders optimizer w optimizer' w' :
  train_epoch optimizer w = (Ok optimizer', w') →
  ∃ w1 evs,
    random_shuffle w = (Ok tt, w1) ∧
    w_log w' = w_log w ++ evs ∧
    orders evs = [EShuffle (w_train_data w1)] ∧
    w_random w' = w_random w1 ∧ w_train_data w' = w_train_data w1.
Proof.
  rewrite train_epoch_unrolled. unfold epoch_unrolled. intros H.
  apply bind_ok_inv in H as ([] & w1 & E1 & H).
  pose proof (random_shuffle_ok _ _ E1) as Hlog1.
  rewrite bind_get_train_data in H. cbv beta in H.
  apply bind_ok_inv in H as (st & wb & E2 & H).
  pose proof (same_data_train_batches_aux w1 E2) as Hd.
  pose proof (same_random_train_batches (chunks (length (w_train_data w1)) 3
                                           (w_train_data w1)) (∅, optimizer) w1) as Hr.
  rewrite E2 in Hr. red in Hr. simpl in Hr.
  apply train_batches_ok in E2 as (bvs & _ & Hlog2 & _).
  inversion H; subst; clear H. simpl.
  exists w1, ([EShuffle (w_train_data w1)] ++ flat_map batch_events bvs
              ++ [EPrintLosses (fst st)]).
  split; [done|]. split; [by rewrite Hlog2, Hlog1, <- !app_assoc|].
  split; [|done]. by rewrite !orders_app, orders_batch_events.
Qed.

Lemma epochs_orders n optimizer1 optimizer2 w1 w2 optimizer1' optimizer2' w1' w2' :
  w_random w1 = w_random w2 → w_train_data w1 = w_train_data w2 →
  for_range n train_epoch optimizer1 w1 = (Ok optimizer1', w1') →
  for_range n train_epoch optimizer2 w2 = (Ok optimizer2', w2') →
  ∃ evs1 evs2,
    w_log w1' = w_log w1 ++ evs1 ∧ w_log w2' = w_log w2 ++ evs2 ∧
    orders evs1 = orders evs2.
Proof.
  revert optimizer1 optimizer2 w1 w2.
  induction n as [|n IH]; intros optimizer1 optimizer2 w1 w2 Hr Hd H1 H2;
    simpl in H1, H2.
  - inversion H1; inversion H2; subst. exists [], []. by rewrite !app_nil_r.
  - apply bind_ok_inv in H1 as (o1 & wa & Ea & H1).
    apply bind_ok_inv in H2 as (o2 & wb & Eb & H2).
    apply train_epoch_orders in Ea as (wa1 & evsa & Sa & La & Oa & Ra & Da).
    apply train_epoch_orders in Eb as (wb1 & evsb & Sb & Lb & Ob & Rb & Db).
    destruct (shuffle_determined _ _ _ _ Hr Hd Sa Sb) as [Hr1 Hd1].
    destruct (IH o1 o2 wa wb) as (evs1 & evs2 & L1 & L2 & HO); [congruence..|done|done|].
    exists (evsa ++ evs1), (evsb ++ evs2).
    rewrite L1, La, L2, Lb, <- !app_assoc, !orders_app. repeat split.
    congruence.
Qed.

(** Two runs of [train_ner] that return, on the same training data, log
    the same shuffled orders. *)
Lemma train_ner_orders output_dir1 output_dir2 w1 w2 :
  w_train_data w1 = w_train_data w2 →
  returned (fst (train_ner output_dir1 w1)) = true →
  returned (fst (train_ner output_dir2 w2)) = true →
  orders (events_of (train_ner output_dir1) w1)
  = orders (events_of (train_ner output_dir2) w2).
Proof.
  intros Hd R1 R2.
  assert (Hrun : ∀ output_dir w,
             returned (fst (train_ner output_dir w)) = true →
             ∃ optimizer nlp1 optimizer' w' rest,
               for_range 50 train_epoch optimizer (loop_entry w nlp1)
               = (Ok optimizer', w') ∧
               w_log (snd (train_ner output_dir w)) = w_log w' ++ rest ∧
               Forall (λ ev, training_event ev = false) rest).
  { intros output_dir w R.
    destruct (begin_training L (w_nlp w)) as [[optimizer nlp1]|e] eqn:E;
      [|by rewrite (train_ner_aborts _ _ _ E) in R].
    rewrite (train_ner_begins _ _ _ _ E) in R |- *.
    destruct (for_range 50 train_epoch optimizer (loop_entry w nlp1))
      as [[optimizer'|e|] w'] eqn:El;
      rewrite (bind_run _ _ _ _ _ El) in R |- *; [|done..].
    destruct (save_model output_dir w') as [r w3] eqn:Es.
    apply save_model_events in Es as (rest & Hlog & Hrest & _).
    by exists optimizer, nlp1, optimizer', w', rest. }
  destruct (Hrun _ _ R1) as (o1 & n1 & o1' & wa & rest1 & El1 & Hl1 & Hr1).
  destruct (Hrun _ _ R2) as (o2 & n2 & o2' & wb & rest2 & El2 & Hl2 & Hr2).
  destruct (epochs_orders 50 o1 o2 (loop_entry w1 n1) (loop_entry w2 n2)
              o1' o2' wa wb eq_refl Hd El1 El2)
    as (evs1 & evs2 & La & Lb & HO).
  rewrite (events_of_app (train_ner output_dir1) w1
             ([ESeed 0; EBeginTraining (w_nlp w1)] ++ evs1 ++ rest1)),
          (events_of_app (train_ner output_dir2) w2
             ([ESeed 0; EBeginTraining (w_nlp w2)] ++ evs2 ++ rest2)).
  - rewrite !orders_app, (orders_not_training _ Hr1), (orders_not_training _ Hr2).
    by rewrite HO.
  - rewrite Hl2, Lb. simpl. by rewrite <- !app_assoc.
  - rewrite Hl1, La. simpl. by rewrite <- !app_assoc.
Qed.

End Orders.

(** ** The training schedule *)

Section Schedule.
Context {L : Library}.
Implicit Types w : World L.

Lemma train_ner_total output_dir w : fst (train_ner output_dir w) ≠ OutOfFuel.
Proof.
  destruct (propagates_train_ner output_dir w) as (evs & _ & H).
  intros E. by rewrite E in H.
Qed.

Lemma main_total model_name output_directory w :
  fst (main model_name output_directory w) ≠ OutOfFuel.
Proof.
  destruct (propagates_main model_name output_directory w) as (evs & _ & H).
  intros E. by rewrite E in H.
Qed.

Lemma schedule_not_training (evs : list (Event L)) :
  Forall (λ ev, training_event ev = false) evs → schedule evs = [].
Proof.
  induction 1 as [|ev evs H _ IH]; [done|].
  unfold schedule in *. rewrite filter_cons, IH.
  case_decide as Hs; [|done]. by destruct ev.
Qed.

Lemma epoch_shape_exact data (e : epoch_view (L := L)) :
  epoch_shape data e → length data mod 3 = 0 →
  Forall (λ b, length (bv_items b) = 3) (ev_batches e).
Proof.
  intros (Hp & Hcut & _) Hmod.
  apply (cut_in_batches_exact 3) in Hcut;
    [|lia | by rewrite (Permutation_length Hp)].
  rewrite Forall_map in Hcut. eapply Forall_impl; [exact Hcut|].
  intros b. simpl. by rewrite length_map.
Qed.

(** C1.  Every run of [train_ner] that returns has logged, after seeding
    and [begin_training], exactly fifty epochs and then no further training
    event.  Each epoch starts with a shuffle of the example set, shows the
    shuffled examples in order to [nlp.update] in batches of three (none is
    empty, and only the last one can be shorter), starting from an empty
    loss dict, and ends by printing the losses.  When three divides the
    number of examples, as for the six of [main], every batch has three. *)
Theorem train_ner_fifty_epochs output_dir w w' :
  train_ner output_dir w = (Ok tt, w') →
  ∃ (epochs : list epoch_view) (rest : list (Event L)),
    w_log w' = w_log w ++ [ESeed 0; EBeginTraining (w_nlp w)]
                       ++ flat_map epoch_events epochs ++ rest ∧
    length epochs = 50 ∧
    Forall (epoch_shape (w_train_data w)) epochs ∧
    (length (w_train_data w) mod 3 = 0 →
     Forall (λ e, Forall (λ b, length (bv_items b) = 3) (ev_batches e)) epochs) ∧
    Forall (λ ev, training_event ev = false) rest.
Proof.
  intros H.
  destruct (begin_training L (w_nlp w)) as [[optimizer nlp1]|e] eqn:E;
    [|by rewrite (train_ner_aborts _ _ _ E) in H].
  rewrite (train_ner_begins _ _ _ _ E) in H.
  apply bind_ok_inv in H as (optimizer' & w2 & Hloop & Hsave).
  apply epochs_ok in Hloop as (epochs & Hlen & Hlog & Hshape & _).
  apply save_model_events in Hsave as (rest & Hlog' & Hrest & _).
  exists epochs, rest. split; [|split; [done|split; [done|split; [|done]]]].
  - rewrite Hlog', Hlog. simpl. by rewrite <- !app_assoc.
  - intros Hmod. eapply Forall_impl; [exact Hshape|].
    intros e He. by apply (epoch_shape_exact (w_train_data w)).
Qed.

(** C8.  [train_ner] seeds the generator with 0 before anything else.
    Two runs on the same training data that return log the same shuffled
    orders, whatever the pipelines, the states of the generator, the file
    systems, the logs and the output directories they start from.  On the
    same pipeline the whole schedule (the shuffled orders and the batches
    shown to [nlp.update], in order) is the same, whether the runs return
    or not. *)
Theorem training_schedule_deterministic output_dir1 output_dir2 w1 w2 :
  w_train_data w1 = w_train_data w2 →
  head (events_of (train_ner output_dir1) w1) = Some (ESeed 0) ∧
  (returned (fst (train_ner output_dir1 w1)) = true →
   returned (fst (train_ner output_dir2 w2)) = true →
   orders (events_of (train_ner output_dir1) w1)
   = orders (events_of (train_ner output_dir2) w2)) ∧
  (w_nlp w1 = w_nlp w2 →
   schedule (events_of (train_ner output_dir1) w1)
   = schedule (events_of (train_ner output_dir2) w2)).
Proof.
  intros Hd. split; [|split; [by apply train_ner_orders | intros Hn]].
  - destruct (begin_training L (w_nlp w1)) as [[optimizer nlp1]|e] eqn:E.
    + rewrite (events_of_app (train_ner output_dir1) w1
                 ([ESeed 0; EBeginTraining (w_nlp w1)]
                  ++ events_of (bind (for_range 50 train_epoch optimizer)
                                  (λ _, save_model output_dir1))
                       (loop_entry w1 nlp1))); [done|].
      rewrite (train_ner_begins _ _ _ _ E).
      assert (Hl : preserves (log_adds (λ _, True))
                (bind (for_range 50 train_epoch optimizer)
                   (λ _, save_model output_dir1))).
      { apply preserves_bind; [apply _ | | intros _].
        - apply preserves_for_range; [apply _|]. intros s. by apply logs_train_epoch.
        - intros w. eapply log_adds_weaken; [|apply logs_save_model]. done. }
      destruct (Hl (loop_entry w1 nlp1)) as (evs & Hlog & _).
      rewrite (events_of_app _ _ _ Hlog), Hlog. simpl. by rewrite <- app_assoc.
    + rewrite (events_of_app (train_ner output_dir1) w1
                 [ESeed 0; EBeginTraining (w_nlp w1); ERaise (LibError e)]); [done|].
      by rewrite (train_ner_aborts _ _ _ E).
  - destruct (training_determined w1 w2 Hn Hd) as (evs & Ho & Hl1 & Hl2 & _).
    assert (Hsched : ∀ output_dir w,
               fst (train_ner PNone w) = fst (train_ner PNone w1) →
               w_log (snd (train_ner PNone w)) = w_log w ++ evs →
               schedule (events_of (train_ner output_dir) w) = schedule evs).
    { intros output_dir w Hfst Hlog.
      assert (∃ evs', w_log (snd (train_ner output_dir w)) = w_log w ++ evs ++ evs'
                      ∧ Forall (λ ev, training_event ev = false) evs')
        as (evs' & Hlog' & Hevs').
      { rewrite train_ner_split. unfold bind.
        destruct (train_ner PNone w) as [[[]|e|] wa]; simpl in Hlog.
        - destruct (save_model output_dir wa) as [r wb] eqn:Es.
          apply save_model_events in Es as (evs' & Hs & Hf & _).
          exists evs'. simpl. by rewrite Hs, Hlog, <- app_assoc.
        - exists []. simpl. by rewrite app_nil_r.
        - exists []. simpl. by rewrite app_nil_r. }
      rewrite (events_of_app _ _ _ Hlog'). unfold schedule.
      rewrite filter_app. fold (schedule evs').
      by rewrite (schedule_not_training _ Hevs'), app_nil_r. }
    rewrite (Hsched output_dir1 w1), (Hsched output_dir2 w2); done.
Qed.

End Schedule.

(** ** What [train_ner] does to its arguments *)

Section Effects.
Context {L : Library}.
Implicit Types w : World L.

Lemma shuffled_of_same_data {A} (m : M L A) :
  preserves same_data m → preserves shuffled m.
Proof. apply preserves_weaken. intros w w' H. red. by rewrite H. Qed.

Lemma same_data_gold_for i : preserves (L := L) same_data (gold_for nlp_make_doc i).
Proof.
  unfold gold_for. apply preserves_bind; [apply _ | frame | intros x].
  destruct (x !! i) as [[raw_text entity_offsets]|]; [|frame].
  apply preserves_bind; [apply _ | apply same_data_make_doc | intros doc]. frame.
Qed.

Lemma shuffled_get_gold_parses frame :
  preserves (L := L) shuffled (get_gold_parses nlp_make_doc frame).
Proof.
  destruct frame; simpl.
  - apply preserves_bind; [apply _ | apply shuffled_random_shuffle | intros _].
    apply shuffled_of_same_data, same_data_gold_for.
  - apply shuffled_of_same_data, same_data_gold_for.
  - frame.
Qed.

Lemma shuffled_train_epoch optimizer :
  preserves (L := L) shuffled (train_epoch optimizer).
Proof.
  apply (preserves_ext _ _ _ (train_epoch_unrolled optimizer)).
  unfold epoch_unrolled.
  apply preserves_bind; [apply _ | apply shuffled_random_shuffle | intros _].
  apply preserves_bind; [apply _ | frame | intros x].
  apply preserves_bind; [apply _ | | intros st; frame].
  apply shuffled_of_same_data, same_data_train_batches.
Qed.

Lemma shuffled_save_model output_dir :
  preserves (L := L) shuffled (save_model output_dir).
Proof.
  intros w. destruct (save_model output_dir w) as [r w'] eqn:E.
  apply save_model_events in E as (_ & _ & _ & _ & Hd & _).
  red. simpl. by rewrite Hd.
Qed.

Lemma shuffled_train_ner output_dir :
  preserves (L := L) shuffled (train_ner output_dir).
Proof.
  unfold train_ner.
  apply preserves_bind; [apply _ | unfold random_seed; frame | intros _].
  apply preserves_bind; [apply _ | frame | intros nlp].
  apply preserves_bind; [apply _ | frame | intros r].
  apply preserves_bind; [apply _ | frame | intros _].
  apply preserves_bind; [apply _ | unfold set_meta; frame | intros _].
  apply preserves_bind; [apply _ | | intros _; apply shuffled_save_model].
  apply preserves_for_range; [apply _ | apply shuffled_train_epoch].
Qed.

#[export] Instance same_name_po : PreOrder (same_name (L := L)).
Proof.
  split; [intros w; reflexivity | intros w1 w2 w3; unfold same_name; congruence].
Qed.

Section KeepsName.
Context (Hkeeps : keeps_meta_name (L := L)).

Lemma same_name_make_doc t : preserves (L := L) same_name (nlp_make_doc t).
Proof.
  intros [rg n d f lg]. unfold nlp_make_doc.
  cbv [bind lib emit raise ret get_nlp set_nlp w_nlp].
  destruct (make_doc L n t) as [[doc nlp']|e] eqn:E; red; simpl; [|done].
  by apply Hkeeps in E.
Qed.

Lemma same_name_train_batch b st : preserves (L := L) same_name (train_batch b st).
Proof.
  intros [rg n d f lg]. unfold train_batch, nlp_update.
  destruct b as [|it b]; [by red|].
  cbv [bind lib emit raise ret get_nlp set_nlp w_nlp].
  destruct (update L n _ _ _ _ _ _) as [[[losses' sgd'] nlp']|e] eqn:E;
    red; simpl; [|done].
  by apply Hkeeps in E.
Qed.

Lemma same_name_gold_items xs : preserves (L := L) same_name (gold_items xs).
Proof.
  induction xs as [|ex xs IH]; simpl; [frame|].
  apply preserves_bind; [apply _ | apply same_name_make_doc | intros doc].
  apply preserves_bind; [apply _ | frame | intros gold].
  apply preserves_bind; [apply _ | apply IH | intros rest]. frame.
Qed.

Lemma same_name_train_batches bs st : preserves (L := L) same_name (train_batches bs st).
Proof.
  revert st. induction bs as [|b bs IH]; intros st; simpl; [frame|].
  apply preserves_bind; [apply _ | apply same_name_gold_items | intros items].
  apply preserves_bind; [apply _ | apply same_name_train_batch | intros st'].
  apply IH.
Qed.

Lemma same_name_swap_items i j : preserves (L := L) same_name (swap_items i j).
Proof.
  unfold swap_items. apply preserves_bind; [apply _ | frame | intros x].
  destruct (x !! j); [destruct (x !! i)|]; frame.
Qed.

Lemma same_name_shuffle_down i : preserves (L := L) same_name (shuffle_down i).
Proof.
  induction i as [|i IH]; simpl; [frame|].
  apply preserves_bind; [apply _ | unfold random_randbelow; frame | intros j].
  apply preserves_bind; [apply _ | apply same_name_swap_items | intros _].
  apply IH.
Qed.

Lemma same_name_train_epoch optimizer : preserves (L := L) same_name (train_epoch optimizer).
Proof.
  apply (preserves_ext _ _ _ (train_epoch_unrolled optimizer)).
  unfold epoch_unrolled, random_shuffle.
  apply preserves_bind; [apply _ | | intros _].
  { apply preserves_bind; [apply _ | frame | intros x].
    apply preserves_bind; [apply _ | apply same_name_shuffle_down | intros _].
    frame. }
  apply preserves_bind; [apply _ | frame | intros x].
  apply preserves_bind; [apply _ | apply same_name_train_batches | intros st].
  frame.
Qed.

Lemma same_name_loop optimizer output_dir :
  preserves (L := L) same_name
    (bind (for_range 50 train_epoch optimizer) (λ _, save_model output_dir)).
Proof.
  apply preserves_bind; [apply _ | | intros _].
  - apply preserves_for_range; [apply _ | apply same_name_train_epoch].
  - intros w. destruct (save_model output_dir w) as [r w'] eqn:E.
    apply save_model_events in E as (_ & _ & _ & _ & _ & Hn).
    red. simpl. by rewrite Hn.
Qed.

End KeepsName.

End Effects.

Section TrainNerClaims.
Context {L : Library}.
Implicit Types w : World L.

Lemma bind_ret_tt (m : M L unit) w : bind m (λ _, ret tt) w = m w.
Proof. unfold bind. by destruct (m w) as [[[]|e|] w1]. Qed.

Lemma training_same_fs w : w_fs (snd (train_ner PNone w)) = w_fs w.
Proof. by destruct (training_determined w w eq_refl eq_refl) as (_ & _ & _ & _ & H & _). Qed.

(** A run with a path that returns: the training, then the saving. *)
Lemma train_ner_saved p w w' :
  train_ner (PPath p) w = (Ok tt, w') →
  ∃ (b : bool) fs1,
    w_fs (snd (train_ner PNone w)) = w_fs w ∧
    path_exists L p (w_fs w) = Returns b ∧
    (if b then fs1 = w_fs w else path_mkdir L p (w_fs w) = Returns fs1) ∧
    to_disk L (w_nlp (snd (train_ner PNone w))) p fs1 = Returns (w_fs w') ∧
    w_log w' = w_log (snd (train_ner PNone w))
               ++ EExists p :: (if b then [] else [EMkdir p]) ++ [EToDisk p].
Proof.
  intros H. pose proof (training_same_fs w) as Hfs.
  rewrite train_ner_split in H.
  apply bind_ok_inv in H as ([] & w1 & E1 & H). rewrite E1 in Hfs |- *.
  simpl in Hfs |- *.
  apply save_model_path_ok in H as (b & fs1 & fs2 & He & Hm & Ht & ->).
  rewrite Hfs in He, Hm. exists b, fs1. by repeat split.
Qed.

(** C4.  Saving is optional.  With a falsy [output_dir] ([None], the empty
    string) [train_ner] is the training alone: it ends as the training
    ends, the file system is as it was and no call touched a path.  With a
    path, a run that returns has asked whether the path exists after the
    training, has made the directory if it did not, and has then written
    the trained pipeline to it; nothing else was logged after the
    training. *)
Theorem saving_is_optional output_dir w :
  (truthy output_dir = false →
     train_ner output_dir w = train_ner PNone w ∧
     w_fs (snd (train_ner output_dir w)) = w_fs w ∧
     Forall (λ ev, event_path ev = None) (events_of (train_ner output_dir) w)) ∧
  (∀ p w', output_dir = PPath p → train_ner output_dir w = (Ok tt, w') →
     let trained := snd (train_ner PNone w) in
     ∃ (b : bool) fs1,
       w_fs trained = w_fs w ∧
       path_exists L p (w_fs w) = Returns b ∧
       (if b then fs1 = w_fs w else path_mkdir L p (w_fs w) = Returns fs1) ∧
       to_disk L (w_nlp trained) p fs1 = Returns (w_fs w') ∧
       w_log w' = w_log trained
                  ++ EExists p :: (if b then [] else [EMkdir p]) ++ [EToDisk p]).
Proof.
  split.
  - intros Hf.
    assert (E : train_ner output_dir w = train_ner PNone w).
    { rewrite train_ner_split, <- (bind_ret_tt (train_ner PNone) w).
      apply bind_ext. intros _ w1. by apply save_model_falsy. }
    split; [done|]. rewrite E. split; [apply training_same_fs|].
    apply log_adds_events.
    intros w0. eapply log_adds_weaken; [|apply logs_train_ner].
    intros ev. destruct ev; simpl; try done; by intros ->.
  - intros p w' -> H. by apply train_ner_saved.
Qed.

(** C10.  Once [begin_training] has answered, [train_ner] goes on, whatever
    the output directory, with the fifty epochs and the saving from a world
    in which [meta["name"]] of the pipeline is ["en_ent_animal"]; if the
    library leaves that entry alone while it tokenises and updates, the
    pipeline still has it when [train_ner] ends, by returning or not. *)
Theorem name_is_set output_dir w optimizer nlp1 :
  begin_training L (w_nlp w) = Returns (optimizer, nlp1) →
  meta (w_nlp (loop_entry w nlp1)) !! "name" = Some "en_ent_animal" ∧
  train_ner output_dir w
  = bind (for_range 50 train_epoch optimizer) (λ _, save_model output_dir)
         (loop_entry w nlp1) ∧
  (keeps_meta_name (L := L) →
   meta (w_nlp (snd (train_ner output_dir w))) !! "name" = Some "en_ent_animal").
Proof.
  intros E. split; [apply lookup_insert_eq|].
  split; [by apply train_ner_begins|].
  intros Hk. rewrite (train_ner_begins _ _ _ _ E).
  rewrite (same_name_loop Hk optimizer output_dir (loop_entry w nlp1)).
  apply lookup_insert_eq.
Qed.

End TrainNerClaims.

Section MainClaims.
Context {L : Library}.
Implicit Types w : World L.

Lemma print_ents_run doc w :
  print_ents doc w
  = (Ok tt, MkWorld (w_random w) (w_nlp w) (w_train_data w) (w_fs w)
              (w_log w ++ map ent_line (ents L doc))).
Proof.
  unfold print_ents. revert w. induction (ents L doc) as [|ent l IH]; intros w.
  - simpl. rewrite app_nil_r. by destruct w.
  - cbn [for_list].
    rewrite (bind_run _ _ _ _ _
               (eq_refl : print (label_ L ent +:+ " " +:+ ent_text L ent) w
                          = (Ok tt, _))).
    rewrite IH. simpl. by rewrite <- app_assoc.
Qed.

Lemma test_entity_ok output_directory w w' :
  test_entity output_directory w = (Ok tt, w') →
  ∃ doc nlp3,
    call L (w_nlp w) "Do you like horses?" = Returns (doc, nlp3) ∧
    w_fs w' = w_fs w ∧
    match output_directory with
    | None =>
        w_log w' = w_log w
          ++ [EPrint "Ents in 'Do you like horses?':";
              ECall Trained "Do you like horses?"]
          ++ map ent_line (ents L doc)
    | Some p =>
        ∃ nlp2 doc2 nlp2',
          load L p (w_fs w) = Returns nlp2 ∧
          call L nlp2 "Do you like horses?" = Returns (doc2, nlp2') ∧
          w_log w' = w_log w
            ++ ([EPrint "Ents in 'Do you like horses?':";
                 ECall Trained "Do you like horses?"]
                ++ map ent_line (ents L doc))
            ++ [EPrint ("Loading from " +:+ str_path L p); ELoad p;
                ECall Reloaded "Do you like horses?"]
            ++ map ent_line (ents L doc2)
    end.
Proof.
  unfold test_entity. intros H.
  apply bind_ok_inv in H as ([] & w1 & E & H). inversion E; subst w1; clear E.
  apply bind_ok_inv in H as (nlp & w1 & [-> ->]%get_nlp_inv & H).
  apply bind_ok_inv in H as ([doc nlp3] & w1 & E & H).
  apply lib_ok_inv in E as [Hcall ->].
  apply bind_ok_inv in H as ([] & w1 & E & H). inversion E; subst w1; clear E.
  apply bind_ok_inv in H as ([] & w1 & E & H).
  rewrite print_ents_run in E. inversion E; subst w1; clear E.
  exists doc, nlp3. simpl in *. split; [done|].
  destruct output_directory as [p|].
  - apply bind_ok_inv in H as ([] & w1 & E & H). inversion E; subst w1; clear E.
    apply bind_ok_inv in H as (fs & w1 & [-> ->]%get_fs_inv & H).
    apply bind_ok_inv in H as (nlp2 & w1 & E & H).
    apply lib_ok_inv in E as [Hload ->].
    apply bind_ok_inv in H as ([doc2 nlp2'] & w1 & E & H).
    apply lib_ok_inv in E as [Hcall2 ->].
    rewrite print_ents_run in H. inversion H; subst w'; clear H.
    simpl in *. split; [done|]. exists nlp2, doc2, nlp2'.
    repeat split; [done..|]. by rewrite <- !app_assoc.
  - inversion H; subst w'; clear H. simpl. split; [done|].
    by rewrite <- !app_assoc.
Qed.

Lemma main_ok_inv model_name output_directory w w' :
  main model_name output_directory w = (Ok tt, w') →
  ∃ nlp0 tve ner ner' w2,
    blank L model_name = Returns nlp0 ∧
    TokenVectorEncoder L (vocab nlp0) = Returns tve ∧
    NeuralEntityRecognizer L (vocab nlp0) = Returns ner ∧
    add_label L ner "ANIMAL" = Returns ner' ∧
    train_ner (as_pyarg output_directory)
      (train_entry w model_name nlp0 tve ner') = (Ok tt, w2) ∧
    test_entity (mkPath L <$> output_directory) w2 = (Ok tt, w').
Proof.
  intros H0. pose proof H0 as H. unfold main in H.
  apply bind_ok_inv in H as ([] & w1 & E & H). inversion E; subst w1; clear E.
  apply bind_ok_inv in H as (nlp0 & w1 & E & H).
  apply lib_ok_inv in E as [H1 ->].
  apply bind_ok_inv in H as ([] & w1 & E & H). inversion E; subst w1; clear E.
  apply bind_ok_inv in H as ([] & w1 & E & H). inversion E; subst w1; clear E.
  apply bind_ok_inv in H as (nlp & w1 & [-> ->]%get_nlp_inv & H).
  apply bind_ok_inv in H as (tve & w1 & E & H).
  apply lib_ok_inv in E as [H2 ->]. simpl in H2.
  apply bind_ok_inv in H as ([] & w1 & E & H). inversion E; subst w1; clear E.
  apply bind_ok_inv in H as (nlp & w1 & [-> ->]%get_nlp_inv & H).
  apply bind_ok_inv in H as (ner & w1 & E & H).
  apply lib_ok_inv in E as [H3 ->]. simpl in H3.
  apply bind_ok_inv in H as ([] & w1 & E & H). inversion E; subst w1; clear E.
  apply bind_ok_inv in H as ([] & w1 & E & _).
  unfold pipeline_last_add_label in E.
  apply bind_ok_inv in E as (nlp & w2 & [-> ->]%get_nlp_inv & E).
  simpl in E. rewrite last_snoc in E.
  apply bind_ok_inv in E as (ner' & w3 & E & _).
  apply lib_ok_inv in E as [H4 _].
  rewrite (main_begins _ _ _ _ _ _ _ H1 H2 H3 H4) in H0.
  apply bind_ok_inv in H0 as ([] & w4 & Htrain & Htest).
  by exists nlp0, tve, ner, ner', w4.
Qed.

Lemma train_ner_log output_dir w :
  ∃ post,
    w_log (snd (train_ner output_dir w))
    = w_log w ++ ESeed 0 :: EBeginTraining (w_nlp w) :: post ∧
    Forall (train_ner_logs output_dir) post.
Proof.
  destruct (logs_train_ner output_dir w) as (evs & Hlog & HP).
  assert (∃ post, w_log (snd (train_ner output_dir w))
                  = w_log w ++ ESeed 0 :: EBeginTraining (w_nlp w) :: post)
    as [post Hpost].
  { destruct (begin_training L (w_nlp w)) as [[optimizer nlp1]|e] eqn:E.
    - rewrite (train_ner_begins _ _ _ _ E).
      assert (Hl : preserves (log_adds (λ _, True))
                (bind (for_range 50 train_epoch optimizer)
                   (λ _, save_model output_dir))).
      { apply preserves_bind; [apply _ | | intros _].
        - apply preserves_for_range; [apply _|]. intros s. by apply logs_train_epoch.
        - intros w0. eapply log_adds_weaken; [|apply logs_save_model]. done. }
      destruct (Hl (loop_entry w nlp1)) as (evs' & Hlog' & _).
      exists evs'. rewrite Hlog'. simpl. by rewrite <- app_assoc.
    - rewrite (train_ner_aborts _ _ _ E). by exists [ERaise (LibError e)]. }
  exists post. split; [done|].
  rewrite Hpost in Hlog. apply app_inv_head in Hlog. subst evs.
  by inversion HP as [|? ? _ HP']; inversion HP'.
Qed.

Lemma logs_test_entity (P : Event L → Prop) output_directory :
  (∀ s, P (EPrint s)) → (∀ on txt, P (ECall on txt)) →
  (∀ p, P (ELoad p)) → (∀ e, P (ERaise e)) →
  preserves (log_adds P) (test_entity output_directory).
Proof.
  intros Hp Hc Hl He. unfold test_entity.
  apply preserves_bind; [apply _ | logs ltac:(done) | intros _].
  apply preserves_bind; [apply _ | logs idtac | intros nlp3].
  apply preserves_bind; [apply _ | logs ltac:(done) | intros r].
  apply preserves_bind; [apply _ | logs idtac | intros _].
  apply preserves_bind; [apply _ | by apply logs_print_ents | intros _].
  destruct output_directory as [p|]; [|logs idtac].
  apply preserves_bind; [apply _ | logs ltac:(done) | intros _].
  apply preserves_bind; [apply _ | logs idtac | intros fs].
  apply preserves_bind; [apply _ | logs ltac:(done) | intros nlp4].
  apply preserves_bind; [apply _ | logs ltac:(done) | intros r2].
  by apply logs_print_ents.
Qed.

(** C3.  When the library answers the four calls of the set-up, [main] has
    made a blank pipeline for the language code, then a token-vector
    encoder and an entity recognizer on its vocabulary, and one call of
    [add_label], with ["ANIMAL"], before [train_ner] seeds the generator.
    The pipeline [begin_training] is called on is the blank one with the
    encoder and, last, the recognizer carrying the label appended to its
    components; no label is added later. *)
Theorem main_builds_pipeline model_name output_directory w nlp0 tve ner ner' :
  blank L model_name = Returns nlp0 →
  TokenVectorEncoder L (vocab nlp0) = Returns tve →
  NeuralEntityRecognizer L (vocab nlp0) = Returns ner →
  add_label L ner "ANIMAL" = Returns ner' →
  let nlp := MkLanguage (vocab nlp0) (pipeline nlp0 ++ [tve; ner']) (meta nlp0) in
  ∃ post,
    events_of (main model_name output_directory) w
    = [EPrint ("Creating initial model " +:+ model_name); EBlank model_name;
       ETokenVectorEncoder; ENeuralEntityRecognizer; EAddLabel "ANIMAL";
       ESeed 0; EBeginTraining nlp] ++ post ∧
    last (pipeline nlp) = Some ner' ∧
    Forall (λ ev, ∀ label, ev ≠ EAddLabel label) post.
Proof.
  intros H1 H2 H3 H4 nlp.
  assert (Hlast : last (pipeline nlp) = Some ner').
  { unfold nlp. simpl.
    change (pipeline nlp0 ++ [tve; ner']) with (pipeline nlp0 ++ [tve] ++ [ner']).
    rewrite app_assoc. apply last_snoc. }
  pose (w1 := train_entry w model_name nlp0 tve ner').
  destruct (train_ner_log (as_pyarg output_directory) w1) as (post1 & Hlog1 & HP1).
  assert (Hno1 : Forall (λ ev : Event L, ∀ label, ev ≠ EAddLabel label) post1).
  { eapply Forall_impl; [exact HP1|]. intros ev Hev label ->. done. }
  assert (∃ post2,
             w_log (snd (main model_name output_directory w))
             = w_log (snd (train_ner (as_pyarg output_directory) w1)) ++ post2 ∧
             Forall (λ ev : Event L, ∀ label, ev ≠ EAddLabel label) post2)
    as (post2 & Hlog2 & Hno2).
  { rewrite (main_begins _ _ _ _ _ _ _ H1 H2 H3 H4). fold w1. unfold bind.
    destruct (train_ner (as_pyarg output_directory) w1) as [[[]|e|] w2]; simpl.
    - apply (logs_test_entity (λ ev, ∀ label, ev ≠ EAddLabel label)); done.
    - exists []. by rewrite app_nil_r.
    - exists []. by rewrite app_nil_r. }
  exists (post1 ++ post2). split; [|split; [done | by apply Forall_app]].
  apply events_of_app. rewrite Hlog2, Hlog1. unfold w1, train_entry, setup_events.
  simpl. by rewrite <- !app_assoc.
Qed.

Lemma not_reload_train_ner output_dir (ev : Event L) :
  train_ner_logs output_dir ev → reload_event ev = false.
Proof. destruct ev as [| | | | | | | | | | | | | | | |[]|]; simpl; done. Qed.

Lemma not_reload_ent_lines (l : list (Ent L)) :
  Forall (λ ev, reload_event ev = false) (map ent_line l).
Proof. apply Forall_map. by apply Forall_true. Qed.

(** C5.  The pipeline is reloaded if and only if an output directory was
    given.  Without one, no run of [main] loads a pipeline or runs a loaded
    one.  With one, a run of [main] that returns ends with: the line
    "Loading from" and the path, the loading of the pipeline from the path
    [train_ner] wrote it to, one prediction by the loaded pipeline on
    "Do you like horses?", and one line with the label and the text of
    each entity it found; nothing was reloaded before. *)
Theorem reload_iff_output_directory model_name output_directory w :
  (output_directory = None →
     Forall (λ ev, reload_event ev = false)
       (events_of (main model_name output_directory) w)) ∧
  (∀ d w', output_directory = Some d →
     main model_name output_directory w = (Ok tt, w') →
     ∃ pre nlp2 doc2 nlp2',
       load L (mkPath L d) (w_fs w') = Returns nlp2 ∧
       call L nlp2 "Do you like horses?" = Returns (doc2, nlp2') ∧
       events_of (main model_name output_directory) w
       = pre ++ [EPrint ("Loading from " +:+ str_path L (mkPath L d));
                 ELoad (mkPath L d);
                 ECall Reloaded "Do you like horses?"]
             ++ map ent_line (ents L doc2) ∧
       EToDisk (mkPath L d) ∈ pre ∧
       Forall (λ ev, reload_event ev = false) pre).
Proof.
  split.
  - intros ->. eapply Forall_impl; [apply log_adds_events, logs_main|].
    intros ev. destruct ev as [| | | | | | | | | | | | | | | |[]|]; simpl;
      try done.
    by intros (d & [=] & _).
  - intros d w' -> H.
    apply main_ok_inv in H as (nlp0 & tve & ner & ner' & w2 & H1 & H2 & H3 & H4
                               & Htrain & Htest).
    change (as_pyarg (Some d)) with (PPath (mkPath L d)) in Htrain.
    change (mkPath L <$> Some d) with (Some (mkPath L d)) in Htest.
    assert (Hmain : w_log (snd (main model_name (Some d) w)) = w_log w').
    { rewrite (main_begins _ _ _ _ _ _ _ H1 H2 H3 H4).
      change (as_pyarg (Some d)) with (PPath (mkPath L d)).
      change (mkPath L <$> Some d) with (Some (mkPath L d)).
      by rewrite (bind_run _ _ _ _ _ Htrain), Htest. }
    assert (Hw1 : w_log (train_entry w model_name nlp0 tve ner')
                  = w_log w ++ setup_events model_name) by done.
    remember (train_entry w model_name nlp0 tve ner') as w1 eqn:Ew1.
    remember (mkPath L d) as p eqn:Ep.
    destruct (train_ner_log (PPath p) w1) as (post1 & Hlog1 & HP1).
    rewrite Htrain in Hlog1. cbn [snd] in Hlog1.
    destruct (train_ner_saved p w1 w2 Htrain)
      as (b & fs1 & _ & _ & _ & _ & Hsaved).
    destruct (logs_training (λ _, True) (λ _ _, I) w1) as (evsT & HlogT & _).
    rewrite HlogT, Hlog1, <- app_assoc in Hsaved. apply app_inv_head in Hsaved.
    apply test_entity_ok in Htest as (doc & nlp3 & _ & Hfs & nlp2 & doc2 & nlp2'
                                      & Hload & Hcall & Hlog2).
    exists (setup_events model_name
            ++ (ESeed 0 :: EBeginTraining (w_nlp w1) :: post1)
            ++ [EPrint "Ents in 'Do you like horses?':";
                ECall Trained "Do you like horses?"]
            ++ map ent_line (ents L doc)),
      nlp2, doc2, nlp2'.
    split; [by rewrite Hfs|]. split; [done|]. split; [|split].
    + apply events_of_app. rewrite Hmain, Hlog2, Hlog1, Hw1.
      by rewrite <- !app_assoc.
    + rewrite !elem_of_app. right. left. rewrite Hsaved.
      rewrite !elem_of_app. right.
      rewrite !elem_of_cons, !elem_of_app. right. right.
      rewrite list_elem_of_singleton. done.
    + repeat apply Forall_app_2.
      * unfold setup_events. by repeat constructor.
      * do 2 (constructor; [done|]).
        eapply Forall_impl; [exact HP1 | apply not_reload_train_ner].
      * by repeat constructor.
      * apply not_reload_ent_lines.
Qed.



End MainClaims.

(** ** The training data *)

(** C2.  The list literal of [main] has six examples, not four; each pairs
    a text with a list of spans, and every span is labelled ["ANIMAL"]. *)
Theorem main_train_data_examples :
  length main_train_data = 6 ∧
  Forall (λ ex : Example, Forall (λ sp : Span, snd sp = "ANIMAL") (snd ex))
    main_train_data.
Proof. split; [reflexivity | repeat constructor]. Qed.

(** C9.  The shuffle is in place.  Resuming [get_gold_parses] and running
    [train_ner] leave the caller's list a permutation of what it was, for
    every library; its order can change. *)
Theorem shuffle_is_in_place :
  (∀ (L : Library) frame (w : World L),
     w_train_data (snd (get_gold_parses nlp_make_doc frame w))
     ≡ₚ w_train_data w) ∧
  (∀ (L : Library) (output_dir : pyarg L) (w : World L),
     w_train_data (snd (train_ner output_dir w)) ≡ₚ w_train_data w) ∧
  (∃ (L : Library) (output_dir : pyarg L) (w : World L),
     w_train_data (snd (train_ner output_dir w)) ≠ w_train_data w).
Proof.
  split; [intros L frame w; apply shuffled_get_gold_parses|].
  split; [intros L output_dir w; apply shuffled_train_ner|].
  exists (Toy.lib None), PNone, (Toy.trained_world None).
  vm_compute. discriminate.
Qed.

(** ** Further properties of [train_ner] *)

Section Further.
Context {L : Library}.
Implicit Types w : World L.

(** *** An empty training set *)

Lemma random_shuffle_nil w :
  w_train_data w = [] →
  random_shuffle w
  = (Ok tt, MkWorld (w_random w) (w_nlp w) [] (w_fs w) (w_log w ++ [EShuffle []])).
Proof. destruct w as [rg n d f lg]. simpl. by intros ->. Qed.

Lemma train_epoch_nil optimizer w :
  w_train_data w = [] →
  train_epoch optimizer w
  = (Ok optimizer,
     MkWorld (w_random w) (w_nlp w) [] (w_fs w)
       (w_log w ++ [EShuffle []; EPrintLosses ∅])).
Proof.
  intros H. rewrite train_epoch_unrolled. unfold epoch_unrolled.
  rewrite (bind_run _ _ _ _ _ (random_shuffle_nil w H)).
  rewrite bind_get_train_data. cbn. by rewrite <- app_assoc.
Qed.

Lemma epochs_nil n optimizer w :
  w_train_data w = [] →
  for_range n train_epoch optimizer w
  = (Ok optimizer,
     MkWorld (w_random w) (w_nlp w) [] (w_fs w)
       (w_log w ++ concat (replicate n [EShuffle []; EPrintLosses ∅]))).
Proof.
  revert w. induction n as [|n IH]; intros w H.
  - simpl. rewrite app_nil_r. destruct w; simpl in *; by subst.
  - cbn [for_range]. rewrite (bind_run _ _ _ _ _ (train_epoch_nil optimizer w H)).
    rewrite IH by done. simpl. by rewrite <- !app_assoc.
Qed.

(** X1.  With no examples there is no batch: each of the fifty epochs shuffles
    the empty list and prints an empty loss dict; nothing is tokenised and
    [nlp.update] is never called, the optimizer is not used, and the
    generator is left as [random.seed(0)] set it.  The saving follows. *)
Theorem train_ner_empty_data output_dir w optimizer nlp1 :
  w_train_data w = [] →
  begin_training L (w_nlp w) = Returns (optimizer, nlp1) →
  train_ner output_dir w
  = save_model output_dir
      (MkWorld (seed L 0) (w_nlp (loop_entry w nlp1)) [] (w_fs w)
         (w_log w ++ [ESeed 0; EBeginTraining (w_nlp w)]
                  ++ concat (replicate 50 [EShuffle []; EPrintLosses ∅]))).
Proof.
  intros Hd Hb. rewrite (train_ner_begins _ _ _ _ Hb).
  rewrite (bind_run _ _ _ _ _ (epochs_nil 50 optimizer (loop_entry w nlp1) Hd)).
  cbn [loop_entry w_random w_nlp w_fs w_log]. by rewrite <- app_assoc.
Qed.

(** *** The saving, case by case *)

Lemma train_ner_failed output_dir w :
  returned (fst (train_ner PNone w)) = false →
  train_ner output_dir w = train_ner PNone w.
Proof.
  intros H. rewrite train_ner_split. unfold bind.
  by destruct (train_ner PNone w) as [[[]|e|] w1].
Qed.

Lemma training_paths w :
  Forall (λ ev, event_path ev = None) (events_of (train_ner PNone) w).
Proof.
  apply log_adds_events.
  intros w0. eapply log_adds_weaken; [|apply logs_train_ner].
  intros ev. destruct ev; simpl; done.
Qed.

(** X2.  A training that fails is not saved: whatever the output directory,
    [train_ner] ends as the training ends, the file system is as it was and
    no call touched a path. *)
Theorem failed_training_saves_nothing output_dir w :
  returned (fst (train_ner PNone w)) = false →
  train_ner output_dir w = train_ner PNone w ∧
  w_fs (snd (train_ner output_dir w)) = w_fs w ∧
  Forall (λ ev, event_path ev = None) (events_of (train_ner output_dir) w).
Proof.
  intros H. pose proof (train_ner_failed output_dir w H) as E.
  split; [done|]. unfold events_of. rewrite E.
  split; [apply training_same_fs | apply training_paths].
Qed.

(** X3.  A non-empty string for [output_dir] is truthy and has no method
    [exists]: the training runs in full, and [train_ner] then ends with an
    [AttributeError] instead of saving. *)
Theorem train_ner_str_output_dir s w :
  s ≠ "" →
  returned (fst (train_ner PNone w)) = true →
  let trained := snd (train_ner PNone w) in
  train_ner (PStr s) w
  = (Raise (AttributeError "exists"),
     MkWorld (w_random trained) (w_nlp trained) (w_train_data trained) (w_fs w)
       (w_log trained ++ [ERaise (AttributeError "exists")])).
Proof.
  intros Hs H. pose proof (training_same_fs w) as Hfs.
  rewrite (train_ner_split (PStr s)). unfold bind.
  destruct (train_ner PNone w) as [[[]|e|] w1]; try discriminate.
  simpl in *. unfold save_model, truthy.
  apply String.eqb_neq in Hs. rewrite Hs. simpl. unfold raise. by rewrite Hfs.
Qed.

Ltac in_list H :=
  repeat (apply elem_of_cons in H as [H|H]; [try discriminate H|]);
  try (by apply elem_of_nil in H).

(** What [train_ner] logs: the training, and the saving if the training
    returned. *)
Lemma train_ner_events output_dir w :
  events_of (train_ner output_dir) w
  = events_of (train_ner PNone) w
    ++ (if returned (fst (train_ner PNone w))
        then events_of (save_model output_dir) (snd (train_ner PNone w))
        else []).
Proof.
  destruct (logs_train_ner PNone w) as (evs & Hlog & _).
  rewrite (events_of_app _ _ _ Hlog).
  apply events_of_app. rewrite train_ner_split. unfold bind.
  destruct (train_ner PNone w) as [[[]|e|] w1]; simpl in *;
    try by rewrite app_nil_r.
  destruct (logs_save_model output_dir w1) as (evs' & Hlog' & _).
  by rewrite (events_of_app _ _ _ Hlog'), Hlog', Hlog, <- app_assoc.
Qed.

(** What the saving to a path logs, whatever the library answers. *)
Lemma save_model_path_events p w :
  events_of (save_model (PPath p)) w
  = EExists p ::
    match path_exists L p (w_fs w) with
    | Raises e => [ERaise (LibError e)]
    | Returns b =>
        let saved fs1 :=
          EToDisk p ::
          match to_disk L (w_nlp w) p fs1 with
          | Raises e => [ERaise (LibError e)]
          | Returns _ => []
          end in
        if b then saved (w_fs w)
        else EMkdir p ::
             match path_mkdir L p (w_fs w) with
             | Raises e => [ERaise (LibError e)]
             | Returns fs1 => saved fs1
             end
    end.
Proof.
  apply events_of_app. destruct w as [rg n d f lg].
  cbv [save_model truthy negb bind lib emit raise ret get_fs get_nlp set_fs
         w_fs w_nlp w_random w_train_data w_log fst snd].
  destruct (path_exists L p f) as [[|]|e]; cbv beta iota.
  - destruct (to_disk L n p f) as [fs2|e]; simpl; by rewrite <- ?app_assoc.
  - destruct (path_mkdir L p f) as [fs1|e]; cbv beta iota.
    + destruct (to_disk L n p fs1) as [fs2|e]; simpl; by rewrite <- ?app_assoc.
    + simpl. by rewrite <- ?app_assoc.
  - simpl. by rewrite <- ?app_assoc.
Qed.

Lemma save_model_other_events (output_dir : pyarg L) w :
  (∀ p, output_dir ≠ PPath p) →
  events_of (save_model output_dir) w
  = if truthy output_dir then [ERaise (AttributeError "exists")] else [].
Proof.
  intros Hp. apply events_of_app. unfold save_model.
  destruct output_dir as [|s|p]; [|destruct (truthy (PStr s))|by destruct (Hp p)];
    simpl; by rewrite ?app_nil_r.
Qed.

(** X4.  The directory is made only where there is none, and the pipeline is
    written only where there is one.  If [train_ner] calls [mkdir] or
    [to_disk] at a path, the path is the output directory, the training had
    returned, and [exists] was asked on the file system as it was before the
    call of [train_ner]: it answered [False] before a [mkdir], and a
    [to_disk] follows either the answer [True] or a [mkdir] that
    returned. *)
Theorem mkdir_only_when_absent output_dir w p :
  (EMkdir p ∈ events_of (train_ner output_dir) w →
   output_dir = PPath p ∧
   returned (fst (train_ner PNone w)) = true ∧
   path_exists L p (w_fs w) = Returns false) ∧
  (EToDisk p ∈ events_of (train_ner output_dir) w →
   output_dir = PPath p ∧
   returned (fst (train_ner PNone w)) = true ∧
   (path_exists L p (w_fs w) = Returns true ∨
    path_exists L p (w_fs w) = Returns false ∧
    ∃ fs1, path_mkdir L p (w_fs w) = Returns fs1)).
Proof.
  pose proof (training_paths w) as Ht. rewrite Forall_forall in Ht.
  pose proof (training_same_fs w) as Hfs.
  rewrite train_ner_events.
  assert (Hsave : ∀ ev, (ev = EMkdir p ∨ ev = EToDisk p) →
            ev ∈ events_of (train_ner PNone) w
                 ++ (if returned (fst (train_ner PNone w))
                     then events_of (save_model output_dir)
                            (snd (train_ner PNone w))
                     else []) →
            returned (fst (train_ner PNone w)) = true ∧
            ∃ p', output_dir = PPath p' ∧
              ev ∈ events_of (save_model (PPath p')) (snd (train_ner PNone w))).
  { intros ev Hev [Hin|Hin]%elem_of_app.
    - apply Ht in Hin. by destruct Hev as [-> | ->].
    - destruct (returned (fst (train_ner PNone w))); [|by apply elem_of_nil in Hin].
      split; [done|]. destruct output_dir as [|s|p'].
      + rewrite save_model_other_events in Hin by done.
        by apply elem_of_nil in Hin.
      + rewrite save_model_other_events in Hin by done.
        destruct (truthy (PStr s)); [|by apply elem_of_nil in Hin].
        apply list_elem_of_singleton in Hin. by destruct Hev as [-> | ->].
      + eauto. }
  split; intros Hin;
    (apply Hsave in Hin as (Hr & p' & -> & Hin); [|by auto]);
    rewrite save_model_path_events, Hfs in Hin;
    destruct (path_exists L p' (w_fs w)) as [[|]|e] eqn:Ee; cbv zeta in Hin;
    try destruct (path_mkdir L p' (w_fs w)) as [fs1|e1] eqn:Em;
    in_list Hin;
    try (match type of Hin with
         | context [to_disk L ?n ?q ?f] => destruct (to_disk L n q f)
         end; in_list Hin);
    inversion Hin; subst; eauto 6.
Qed.

(** *** The generator *)

(** X5.  Asked for more items than there are examples, [get_gold_parses] shuffles
    the list once, yields one pair of document and gold parse for every
    example of the shuffled list, in its order, and is then exhausted. *)
Theorem get_gold_parses_yields_all n w items frame w' :
  length (w_train_data w) < n →
  take_items n (get_gold_parses nlp_make_doc) GStart w = (Ok (items, frame), w') →
  frame = GDone ∧
  w_train_data w' ≡ₚ w_train_data w ∧
  length items = length (w_train_data w) ∧
  w_log w' = w_log w ++ EShuffle (w_train_data w')
                     :: flat_map item_events (zip (w_train_data w') items).
Proof.
  intros Hn H. destruct n as [|n]; [lia|].
  rewrite take_items_start in H.
  apply bind_ok_inv in H as ([] & w1 & E1 & H).
  pose proof (shuffled_random_shuffle w) as Hperm. rewrite E1 in Hperm.
  red in Hperm. simpl in Hperm. apply random_shuffle_ok in E1.
  rewrite take_items_unroll in H.
  pose proof (Permutation_length Hperm) as Hlen.
  rewrite drop_0, take_ge in H by lia.
  apply bind_ok_inv in H as (r & w2 & E2 & H).
  pose proof (same_data_gold_items (w_train_data w1) w1) as Hsame.
  rewrite E2 in Hsame. red in Hsame. simpl in Hsame.
  apply gold_items_ok in E2 as [Hitems Hlog].
  inversion H; subst; clear H. unfold frame_after.
  rewrite decide_False by lia. rewrite Hsame.
  split; [done|]. split; [done|]. split; [lia|].
  rewrite Hlog, E1. by rewrite <- app_assoc.
Qed.

(** *** What the epochs hand on *)

Lemma train_batches_chained bs st w st' w' :
  train_batches bs st w = (Ok st', w') →
  ∃ bvs : list batch_view,
    map (λ b, map fst (bv_items b)) bvs = bs ∧
    w_log w' = w_log w ++ flat_map batch_events bvs ∧
    chained st bvs st'.
Proof.
  revert st w st' w'. induction bs as [|b bs IH]; intros st w st' w' H; simpl in H.
  - inversion H; subst. exists []. simpl. by rewrite app_nil_r.
  - apply bind_ok_inv in H as (items & w1 & E1 & H).
    apply gold_items_ok in E1 as [Hlen Hlog1].
    apply bind_ok_inv in H as (st1 & w2 & E2 & H).
    pose proof (train_batch_ok _ _ _ _ _ E2) as [Hne Hlog2].
    unfold train_batch in E2. destruct items as [|it items]; [done|].
    apply nlp_update_ok in E2 as (nlp' & Hup & _).
    apply IH in H as (bvs & Hbs & Hlog3 & Hch).
    assert (Hd : map (λ it0, fst (snd it0)) (zip b (it :: items))
                 = map fst (it :: items))
      by (by rewrite <- (map_map snd fst), snd_zip by lia).
    assert (Hg : map (λ it0, snd (snd it0)) (zip b (it :: items))
                 = map snd (it :: items))
      by (by rewrite <- (map_map snd snd), snd_zip by lia).
    exists (MkBatchView (zip b (it :: items)) (fst st) (snd st) :: bvs).
    split; [|split].
    + cbn [map bv_items]. f_equal; [|done]. apply fst_zip. lia.
    + rewrite Hlog3, Hlog2, Hlog1. unfold batch_events at 2.
      cbn [flat_map bv_items bv_losses bv_sgd]. unfold batch_events at 1.
      cbn [bv_items bv_losses bv_sgd]. rewrite Hd, Hg.
      by rewrite <- !app_assoc.
    + cbn [chained bv_items bv_losses bv_sgd]. rewrite Hd, Hg.
      split; [done|]. split; [done|]. by exists (w_nlp w1), nlp', st1.
Qed.

Lemma train_epoch_chained optimizer w optimizer' w' :
  train_epoch optimizer w = (Ok optimizer', w') →
  ∃ e : epoch_view,
    w_log w' = w_log w ++ epoch_events e ∧
    ev_order e = w_train_data w' ∧
    chained (∅, optimizer) (ev_batches e) (ev_printed e, optimizer').
Proof.
  rewrite train_epoch_unrolled. unfold epoch_unrolled. intros H.
  apply bind_ok_inv in H as ([] & w1 & E1 & H).
  apply random_shuffle_ok in E1.
  rewrite bind_get_train_data in H. cbv beta in H.
  apply bind_ok_inv in H as (st & w2 & E2 & H).
  pose proof (same_data_train_batches_aux w1 E2) as Hsame.
  apply train_batches_chained in E2 as (bvs & Hbs & Hlog & Hch).
  inversion H; subst; clear H. simpl.
  exists (MkEpochView (w_train_data w1) bvs (fst st)).
  split; [|split; [done|by destruct st]].
  rewrite Hlog, E1. unfold epoch_events. simpl. by rewrite <- !app_assoc.
Qed.

Lemma last_cons_default {A} (x : A) l : last (x :: l) = Some (default x (last l)).
Proof.
  revert x. induction l as [|y l IH]; intros x; [done|].
  change (last (x :: y :: l)) with (last (y :: l)). by rewrite IH.
Qed.

Lemma epochs_chained_ok n optimizer w optimizer' w' :
  for_range n train_epoch optimizer w = (Ok optimizer', w') →
  ∃ eps : list epoch_view,
    length eps = n ∧
    w_log w' = w_log w ++ flat_map epoch_events eps ∧
    epochs_chained optimizer eps optimizer' ∧
    default (w_train_data w) (last (map ev_order eps)) = w_train_data w'.
Proof.
  revert optimizer w. induction n as [|n IH]; intros optimizer w H; simpl in H.
  - inversion H; subst. exists []. simpl. by rewrite app_nil_r.
  - apply bind_ok_inv in H as (opt1 & w1 & E1 & H).
    apply train_epoch_chained in E1 as (e & Hlog1 & Hord & Hch).
    apply IH in H as (eps & Hlen & Hlog & Hchs & Hlast).
    exists (e :: eps). split; [simpl; by rewrite Hlen|].
    split; [simpl; by rewrite Hlog, Hlog1, <- app_assoc|].
    split; [by exists opt1|].
    cbn [map]. rewrite last_cons_default. simpl. by rewrite Hord.
Qed.

Lemma train_ner_epochs_chained output_dir w w' optimizer nlp1 :
  begin_training L (w_nlp w) = Returns (optimizer, nlp1) →
  train_ner output_dir w = (Ok tt, w') →
  ∃ (eps : list epoch_view) (rest : list (Event L)) sgd',
    w_log w' = w_log w ++ [ESeed 0; EBeginTraining (w_nlp w)]
                       ++ flat_map epoch_events eps ++ rest ∧
    length eps = 50 ∧
    epochs_chained optimizer eps sgd' ∧
    last (map ev_order eps) = Some (w_train_data w') ∧
    Forall (λ ev, training_event ev = false) rest.
Proof.
  intros E H. rewrite (train_ner_begins _ _ _ _ E) in H.
  apply bind_ok_inv in H as (sgd' & w2 & Hloop & Hsave).
  apply epochs_chained_ok in Hloop as (eps & Hlen & Hlog & Hch & Hlast).
  apply save_model_events in Hsave as (rest & Hlog' & Hrest & _ & Hd & _).
  exists eps, rest, sgd'. split; [|split; [done|split; [done|split; [|done]]]].
  - rewrite Hlog', Hlog. simpl. by rewrite <- !app_assoc.
  - rewrite Hd, <- Hlast. destruct eps as [|e eps]; [done|].
    cbn [map]. by rewrite !last_cons_default.
Qed.

(** X6.  The optimizer and the loss dict are handed on.  In a run of [train_ner]
    that returns, the first [nlp.update] is given the optimizer that
    [begin_training] answered and an empty loss dict; every later one of
    the epoch is given the loss dict and the optimizer its predecessor
    left; the epoch prints the loss dict its last batch left, and the next
    epoch goes on with that optimizer and a new, empty loss dict. *)
Theorem optimizer_and_losses_handed_on output_dir w w' optimizer nlp1 :
  begin_training L (w_nlp w) = Returns (optimizer, nlp1) →
  train_ner output_dir w = (Ok tt, w') →
  ∃ (eps : list epoch_view) (rest : list (Event L)) sgd',
    w_log w' = w_log w ++ [ESeed 0; EBeginTraining (w_nlp w)]
                       ++ flat_map epoch_events eps ++ rest ∧
    length eps = 50 ∧
    epochs_chained optimizer eps sgd' ∧
    Forall (λ ev, training_event ev = false) rest.
Proof.
  intros E H.
  destruct (train_ner_epochs_chained _ _ _ _ _ E H)
    as (eps & rest & sgd' & H1 & H2 & H3 & _ & H5).
  by exists eps, rest, sgd'.
Qed.

(** X7.  The caller's list ends in the order of the last epoch: every epoch
    shuffles the list as the epoch before left it, and nothing restores
    it. *)
Theorem list_left_in_last_order output_dir w w' :
  train_ner output_dir w = (Ok tt, w') →
  ∃ (eps : list epoch_view) (rest : list (Event L)),
    w_log w' = w_log w ++ [ESeed 0; EBeginTraining (w_nlp w)]
                       ++ flat_map epoch_events eps ++ rest ∧
    Forall (λ ev, training_event ev = false) rest ∧
    last (map ev_order eps) = Some (w_train_data w').
Proof.
  intros H.
  destruct (begin_training L (w_nlp w)) as [[optimizer nlp1]|e] eqn:E;
    [|by rewrite (train_ner_aborts _ _ _ E) in H].
  destruct (train_ner_epochs_chained _ _ _ _ _ E H)
    as (eps & rest & sgd' & H1 & _ & _ & H4 & H5).
  by exists eps, rest.
Qed.

(** *** How often the library is called *)

Lemma count_events_app f (l1 l2 : list (Event L)) :
  count_events f (l1 ++ l2) = count_events f l1 + count_events f l2.
Proof. unfold count_events. by rewrite filter_app, length_app. Qed.

Lemma count_events_cons f ev (l : list (Event L)) :
  count_events f (ev :: l) = (if f ev then 1 else 0) + count_events f l.
Proof.
  unfold count_events. rewrite filter_cons.
  destruct (f ev); by case_decide.
Qed.

Lemma count_events_none f (l : list (Event L)) :
  Forall (λ ev, f ev = false) l → count_events f l = 0.
Proof.
  induction 1 as [|ev l H _ IH]; [done|].
  by rewrite count_events_cons, H, IH.
Qed.

Lemma count_events_flat_map {A} f (g : A → list (Event L)) (xs : list A) :
  count_events f (flat_map g xs) = sum_list (map (λ x, count_events f (g x)) xs).
Proof.
  induction xs as [|x xs IH]; [done|].
  simpl. by rewrite count_events_app, IH.
Qed.

Lemma sum_list_const {A} (c : A → nat) k (xs : list A) :
  Forall (λ x, c x = k) xs → sum_list (map c xs) = length xs * k.
Proof. induction 1 as [|x xs H _ IH]; simpl; [done | by rewrite H, IH]. Qed.

Lemma length_concat_map {A B} (g : A → list B) (xs : list A) :
  length (concat (map g xs)) = sum_list (map (λ x, length (g x)) xs).
Proof.
  induction xs as [|x xs IH]; [done|]. simpl. by rewrite length_app, IH.
Qed.

(** Cutting in runs of [n] gives the length over [n], rounded up. *)
Lemma cut_in_batches_length {A} n (l : list A) bs :
  1 ≤ n → cut_in_batches n l bs → length bs = (length l + (n - 1)) / n.
Proof.
  intros Hn. revert l. induction bs as [|b bs IH]; intros l Hcut.
  - destruct Hcut as (<- & _). simpl. symmetry. apply Nat.div_small. lia.
  - pose proof Hcut as (Hc & Hs & Hk).
    assert (Hb : 1 ≤ length b ≤ n) by by inversion Hs.
    simpl in Hc. subst l. rewrite length_app.
    destruct bs as [|b' bs].
    + simpl. rewrite Nat.add_0_r.
      apply (Nat.div_unique _ _ _ (length b - 1)); lia.
    + assert (Hfull : length b = n) by (apply (Hk 0); [done | simpl; lia]).
      rewrite Hfull.
      change (length (b :: b' :: bs)) with (1 + length (b' :: bs)).
      rewrite (IH (concat (b' :: bs))) by by eapply cut_in_batches_tail.
      replace (n + length (concat (b' :: bs)) + (n - 1))
        with (1 * n + (length (concat (b' :: bs)) + (n - 1))) by lia.
      rewrite Nat.div_add_l by lia. done.
Qed.

(** One epoch over [data]: a shuffle, a document and a gold parse for each
    example, an update for each batch. *)
Lemma count_epoch_events data (e : epoch_view (L := L)) :
  epoch_shape data e →
  count_events shuffle_event (epoch_events e) = 1 ∧
  count_events make_doc_event (epoch_events e) = length data ∧
  count_events gold_parse_event (epoch_events e) = length data ∧
  count_events update_event (epoch_events e) = (length data + 2) / 3.
Proof.
  intros (Hp & Hcut & _). apply Permutation_length in Hp.
  pose proof (cut_in_batches_length 3 _ _ ltac:(lia) Hcut) as Hn.
  rewrite length_map in Hn. rewrite Hp in Hn. simpl in Hn.
  destruct Hcut as (Hc & _).
  apply (f_equal length) in Hc. rewrite Hp in Hc.
  rewrite (length_concat_map (λ b, map fst (bv_items b))) in Hc.
  unfold epoch_events.
  rewrite !count_events_cons, !count_events_app, !count_events_cons.
  rewrite !count_events_flat_map. simpl.
  assert (Hb : ∀ f k1 k2,
            (∀ it, count_events f (item_events it) = k1) →
            (∀ b, count_events f [EUpdate (map (λ it, fst (snd it)) (bv_items b))
                                    (map (λ it, snd (snd it)) (bv_items b))
                                    (bv_losses b) (bv_sgd b) true (35 # 100)] = k2) →
            sum_list (map (λ b, count_events f (batch_events b)) (ev_batches e))
            = sum_list (map (λ b, length (bv_items b) * k1 + k2) (ev_batches e))).
  { intros f k1 k2 H1 H2. f_equal. apply map_ext. intros b.
    unfold batch_events. rewrite count_events_app, H2. f_equal.
    rewrite count_events_flat_map. apply sum_list_const. by apply Forall_forall. }
  assert (Hlen : sum_list (map (λ b, length (bv_items b) * 1 + 0) (ev_batches e))
                 = length data).
  { rewrite <- Hc. f_equal. apply map_ext. intros b. rewrite length_map. lia. }
  change (count_events _ []) with 0.
  split; [|split; [|split]].
  - rewrite (Hb shuffle_event 0 0) by done.
    rewrite (sum_list_const _ 0) by (apply Forall_forall; intros; cbv beta; lia).
    lia.
  - rewrite (Hb make_doc_event 1 0) by done. rewrite Hlen. lia.
  - rewrite (Hb gold_parse_event 1 0) by done. rewrite Hlen. lia.
  - rewrite (Hb update_event 0 1) by done.
    rewrite (sum_list_const _ 1) by (apply Forall_forall; intros; cbv beta; lia).
    lia.
Qed.

Lemma count_epochs_events f data k (eps : list (epoch_view (L := L))) :
  (∀ e, epoch_shape data e → count_events f (epoch_events e) = k) →
  Forall (epoch_shape data) eps →
  count_events f (flat_map epoch_events eps) = length eps * k.
Proof.
  intros Hk Hs. rewrite count_events_flat_map. apply sum_list_const.
  eapply Forall_impl; [exact Hs | exact Hk].
Qed.

(** Events that are no training events count for nothing. *)
Lemma count_events_not_training f (evs : list (Event L)) :
  (∀ ev, f ev = true → training_event ev = true) →
  Forall (λ ev, training_event ev = false) evs →
  count_events f evs = 0.
Proof.
  intros Hf Hevs. apply count_events_none.
  eapply Forall_impl; [exact Hevs|]. intros ev Hev. simpl in Hev.
  destruct (f ev) eqn:E1; [|done]. apply Hf in E1. congruence.
Qed.

Lemma train_ner_counts output_dir w w' f k :
  train_ner output_dir w = (Ok tt, w') →
  (∀ ev, f ev = true → training_event ev = true) →
  (∀ e, epoch_shape (w_train_data w) e → count_events f (epoch_events e) = k) →
  count_events f (events_of (train_ner output_dir) w) = 50 * k.
Proof.
  intros H Hf Hk.
  assert (∃ eps rest,
            events_of (train_ner output_dir) w
            = [ESeed 0; EBeginTraining (w_nlp w)]
              ++ flat_map epoch_events eps ++ rest ∧
            length eps = 50 ∧
            Forall (epoch_shape (w_train_data w)) eps ∧
            Forall (λ ev, training_event ev = false) rest)
    as (eps & rest & -> & Hlen & Hshape & Hrest).
  { destruct (begin_training L (w_nlp w)) as [[optimizer nlp1]|e] eqn:E;
      [|by rewrite (train_ner_aborts _ _ _ E) in H].
    pose proof H as H0. rewrite (train_ner_begins _ _ _ _ E) in H.
    apply bind_ok_inv in H as (optimizer' & w2 & Hloop & Hsave).
    apply epochs_ok in Hloop as (eps & Hlen & Hlog & Hshape & _).
    apply save_model_events in Hsave as (rest & Hlog' & Hrest & _).
    exists eps, rest. split; [|done]. apply events_of_app.
    rewrite H0. simpl. rewrite Hlog', Hlog. simpl. by rewrite <- !app_assoc. }
  rewrite !count_events_app.
  rewrite (count_epochs_events f _ k) by done.
  rewrite (count_events_not_training f rest) by done.
  rewrite (count_events_not_training f [_; _]) by (by repeat constructor).
  lia.
Qed.

(** X8.  A run of [train_ner] that returns has shuffled fifty times, has made a
    document and a gold parse fifty times for each example, and has called
    [nlp.update] fifty times for every three examples or part thereof. *)
Theorem train_ner_call_counts output_dir w w' :
  train_ner output_dir w = (Ok tt, w') →
  let evs := events_of (train_ner output_dir) w in
  let n := length (w_train_data w) in
  count_events shuffle_event evs = 50 ∧
  count_events make_doc_event evs = 50 * n ∧
  count_events gold_parse_event evs = 50 * n ∧
  count_events update_event evs = 50 * ((n + 2) / 3).
Proof.
  intros H evs n. subst evs n.
  split; [|split; [|split]].
  - rewrite (train_ner_counts _ _ _ shuffle_event 1 H); [lia | by intros [] |].
    intros e He. by apply (count_epoch_events _ _ He).
  - apply (train_ner_counts _ _ _ _ _ H); [by intros [] |].
    intros e He. by apply (count_epoch_events _ _ He).
  - apply (train_ner_counts _ _ _ _ _ H); [by intros [] |].
    intros e He. by apply (count_epoch_events _ _ He).
  - apply (train_ner_counts _ _ _ _ _ H); [by intros [] |].
    intros e He. by apply (count_epoch_events _ _ He).
Qed.

(** What a run of [main] that returns logs: the set-up, [train_ner] on the
    six examples, the test. *)
Lemma main_events model_name output_directory w w' :
  main model_name output_directory w = (Ok tt, w') →
  ∃ nlp0 tve ner' w2 post,
    train_ner (as_pyarg output_directory)
      (train_entry w model_name nlp0 tve ner') = (Ok tt, w2) ∧
    events_of (main model_name output_directory) w
    = setup_events model_name
      ++ events_of (train_ner (as_pyarg output_directory))
           (train_entry w model_name nlp0 tve ner')
      ++ post ∧
    Forall (λ ev, training_event ev = false) post.
Proof.
  intros H. pose proof H as H0.
  apply main_ok_inv in H
    as (nlp0 & tve & ner & ner' & w2 & _ & _ & _ & _ & Htrain & Htest).
  destruct (logs_train_ner (as_pyarg output_directory)
              (train_entry w model_name nlp0 tve ner')) as (evs & Hlog & _).
  destruct (logs_test_entity (λ ev, training_event ev = false)
              (mkPath L <$> output_directory)
              ltac:(done) ltac:(done) ltac:(done) ltac:(done) w2)
    as (post & Hlog' & Hpost).
  exists nlp0, tve, ner', w2, post. split; [done|]. split; [|done].
  rewrite (events_of_app _ _ _ Hlog). apply events_of_app.
  rewrite H0. rewrite Htest in Hlog'. rewrite Htrain in Hlog. simpl in *.
  by rewrite Hlog', Hlog, <- !app_assoc.
Qed.

(** X9.  A run of [main] that returns has shuffled its six examples fifty
    times, has made three hundred documents and as many gold parses, and
    has called [nlp.update] a hundred times: two batches an epoch. *)
Theorem main_call_counts model_name output_directory w w' :
  main model_name output_directory w = (Ok tt, w') →
  let evs := events_of (main model_name output_directory) w in
  count_events shuffle_event evs = 50 ∧
  count_events make_doc_event evs = 300 ∧
  count_events gold_parse_event evs = 300 ∧
  count_events update_event evs = 100.
Proof.
  intros H evs. subst evs.
  apply main_events in H as (nlp0 & tve & ner' & w2 & post & Htrain & -> & Hpost).
  assert (Hcount : ∀ f k,
            (∀ ev, f ev = true → training_event ev = true) →
            (∀ e, epoch_shape main_train_data e →
                  count_events f (epoch_events e) = k) →
            count_events f
              (setup_events model_name
               ++ events_of (train_ner (as_pyarg output_directory))
                    (train_entry w model_name nlp0 tve ner')
               ++ post) = 50 * k).
  { intros f k Hf Hk. rewrite !count_events_app.
    rewrite (train_ner_counts _ _ _ f k Htrain) by done.
    rewrite (count_events_not_training f post) by done.
    rewrite (count_events_not_training f (setup_events model_name))
      by (by repeat constructor).
    lia. }
  split; [|split; [|split]].
  - rewrite (Hcount shuffle_event 1); [lia | by intros [] |].
    intros e He. by apply (count_epoch_events _ _ He).
  - rewrite (Hcount make_doc_event 6); [lia | by intros [] |].
    intros e He. by apply (count_epoch_events _ _ He).
  - rewrite (Hcount gold_parse_event 6); [lia | by intros [] |].
    intros e He. by apply (count_epoch_events _ _ He).
  - rewrite (Hcount update_event 2); [lia | by intros [] |].
    intros e He. by apply (count_epoch_events _ _ He).
Qed.

(** *** The set-up of [main] *)

Lemma add_label_fails label w l c e :
  pipeline (w_nlp w) = l ++ [c] →
  add_label L c label = Raises e →
  pipeline_last_add_label label w
  = (Raise (LibError e),
     MkWorld (w_random w) (w_nlp w) (w_train_data w) (w_fs w)
       (w_log w ++ [EAddLabel label; ERaise (LibError e)])).
Proof.
  intros Hp Ha. unfold pipeline_last_add_label.
  rewrite (bind_run _ _ _ _ _ (eq_refl : get_nlp w = (Ok (w_nlp w), w))).
  rewrite Hp, last_snoc, Ha.
  by rewrite (bind_run _ _ _ _ _ (lib_raises _ _ _)).
Qed.

(** Either the four calls of the set-up return, or [main] ends at the first
    that does not, with its exception. *)
Lemma main_setup_cases model_name output_directory w :
  (∃ nlp0 tve ner ner',
     blank L model_name = Returns nlp0 ∧
     TokenVectorEncoder L (vocab nlp0) = Returns tve ∧
     NeuralEntityRecognizer L (vocab nlp0) = Returns ner ∧
     add_label L ner "ANIMAL" = Returns ner') ∨
  (∃ e evs,
     fst (main model_name output_directory w) = Raise (LibError e) ∧
     w_fs (snd (main model_name output_directory w)) = w_fs w ∧
     w_log (snd (main model_name output_directory w)) = w_log w ++ evs ∧
     Forall (λ ev, setup_event ev = true) evs).
Proof.
  destruct w as [rg n d f lg].
  destruct (blank L model_name) as [nlp0|e] eqn:H1.
  2:{ right. exists e. eexists. unfold main. rewrite H1.
      cbn [bind print emit raise ret lib get_nlp set_nlp set_train_data
           pipeline_append vocab pipeline meta fst snd
           w_random w_nlp w_train_data w_fs w_log].
      rewrite <- !app_assoc. repeat split. repeat constructor. }
  destruct (TokenVectorEncoder L (vocab nlp0)) as [tve|e] eqn:H2.
  2:{ right. exists e. eexists. unfold main. rewrite H1.
      cbn [bind print emit raise ret lib get_nlp set_nlp set_train_data
           pipeline_append vocab pipeline meta fst snd
           w_random w_nlp w_train_data w_fs w_log].
      rewrite H2.
      cbn [bind print emit raise ret lib get_nlp set_nlp set_train_data
           pipeline_append vocab pipeline meta fst snd
           w_random w_nlp w_train_data w_fs w_log].
      rewrite <- !app_assoc. repeat split. repeat constructor. }
  destruct (NeuralEntityRecognizer L (vocab nlp0)) as [ner|e] eqn:H3.
  2:{ right. exists e. eexists. unfold main. rewrite H1.
      cbn [bind print emit raise ret lib get_nlp set_nlp set_train_data
           pipeline_append vocab pipeline meta fst snd
           w_random w_nlp w_train_data w_fs w_log].
      rewrite H2.
      cbn [bind print emit raise ret lib get_nlp set_nlp set_train_data
           pipeline_append vocab pipeline meta fst snd
           w_random w_nlp w_train_data w_fs w_log].
      rewrite H3.
      cbn [bind print emit raise ret lib get_nlp set_nlp set_train_data
           pipeline_append vocab pipeline meta fst snd
           w_random w_nlp w_train_data w_fs w_log].
      rewrite <- !app_assoc. repeat split. repeat constructor. }
  destruct (add_label L ner "ANIMAL") as [ner'|e] eqn:H4.
  { left. by exists nlp0, tve, ner, ner'. }
  right. exists e. eexists. unfold main. rewrite H1.
  cbn [bind print emit raise ret lib get_nlp set_nlp set_train_data
       pipeline_append vocab pipeline meta fst snd
       w_random w_nlp w_train_data w_fs w_log].
  rewrite H2.
  cbn [bind print emit raise ret lib get_nlp set_nlp set_train_data
       pipeline_append vocab pipeline meta fst snd
       w_random w_nlp w_train_data w_fs w_log].
  rewrite H3.
  cbn [bind print emit raise ret lib get_nlp set_nlp set_train_data
       pipeline_append vocab pipeline meta fst snd
       w_random w_nlp w_train_data w_fs w_log].
  erewrite bind_run
    by (by apply (add_label_fails _ _ (pipeline nlp0 ++ [tve]) ner e)).
  cbn [fst snd w_random w_nlp w_train_data w_fs w_log].
  rewrite <- !app_assoc. repeat split. repeat constructor.
Qed.

(** X10.  Nothing of the training, the saving or the test happens unless the four
    calls of the set-up returned: an event of [main] that is not one of the
    set-up, nor a line printed, nor an exception, shows that [spacy.blank],
    the two component constructors and [add_label] had all answered. *)
Theorem training_needs_setup model_name output_directory w ev :
  ev ∈ events_of (main model_name output_directory) w →
  setup_event ev = false →
  ∃ nlp0 tve ner ner',
    blank L model_name = Returns nlp0 ∧
    TokenVectorEncoder L (vocab nlp0) = Returns tve ∧
    NeuralEntityRecognizer L (vocab nlp0) = Returns ner ∧
    add_label L ner "ANIMAL" = Returns ner'.
Proof.
  intros Hin Hev.
  destruct (main_setup_cases model_name output_directory w)
    as [H|(e & evs & _ & _ & Hlog & Hevs)]; [done|].
  rewrite (events_of_app _ _ _ Hlog) in Hin.
  rewrite Forall_forall in Hevs. apply Hevs in Hin. congruence.
Qed.

(** *** The script raises nothing of its own *)

Lemma lib_outcome_bind {A B} (m : M L A) (k : A → M L B) w :
  lib_outcome (fst (m w)) →
  (∀ a w1, m w = (Ok a, w1) → lib_outcome (fst (k a w1))) →
  lib_outcome (fst (bind m k w)).
Proof. unfold bind. destruct (m w) as [[a|e|] w1]; simpl; auto. Qed.

Lemma lib_outcome_lib {A} ev (a : answer (LibExn L) A) w :
  lib_outcome (fst (lib ev a w)).
Proof. by destruct a. Qed.

Lemma swap_items_returns i j w :
  i < length (w_train_data w) → j < length (w_train_data w) →
  ∃ w', swap_items i j w = (Ok tt, w') ∧
        length (w_train_data w') = length (w_train_data w).
Proof.
  intros Hi Hj. unfold swap_items. rewrite bind_get_train_data. cbv beta.
  destruct (lookup_lt_is_Some_2 _ _ Hi) as [xi ->].
  destruct (lookup_lt_is_Some_2 _ _ Hj) as [xj ->].
  eexists. split; [reflexivity|]. simpl. by rewrite !length_insert.
Qed.

(** With [randbelow] answering within its bound, every index of the
    shuffle is one of the list. *)
Lemma shuffle_down_returns i w :
  randbelow_bounded (L := L) →
  i < length (w_train_data w) ∨ i = 0 →
  ∃ w', shuffle_down i w = (Ok tt, w').
Proof.
  intros Hr. revert w. induction i as [|i IH]; intros w Hi; [by eexists|].
  destruct Hi as [Hi|]; [|done].
  cbn [shuffle_down]. unfold random_randbelow.
  cbn [bind get_random set_random ret fst snd].
  pose proof (Hr (w_random w) (S (S i)) ltac:(lia)) as Hj.
  set (w1 := MkWorld _ _ _ _ _).
  destruct (swap_items_returns (S i) (fst (randbelow L (w_random w) (S (S i)))) w1)
    as (w2 & E & Hlen); [done | simpl; lia |].
  rewrite (bind_run _ _ _ _ _ E).
  apply IH. left. rewrite Hlen. simpl. lia.
Qed.

Lemma random_shuffle_returns w :
  randbelow_bounded (L := L) → ∃ w', random_shuffle w = (Ok tt, w').
Proof.
  intros Hr. unfold random_shuffle. rewrite bind_get_train_data. cbv beta.
  destruct (shuffle_down_returns (length (w_train_data w) - 1) w Hr) as [w1 E].
  { destruct (w_train_data w); simpl; [by right | left; lia]. }
  rewrite (bind_run _ _ _ _ _ E). by eexists.
Qed.

Lemma lib_outcome_make_doc t w : lib_outcome (fst (nlp_make_doc t w)).
Proof.
  unfold nlp_make_doc. apply lib_outcome_bind; [done|]. intros nlp w1 _.
  apply lib_outcome_bind; [apply lib_outcome_lib|]. by intros r w2 _.
Qed.

Lemma lib_outcome_gold_items xs w : lib_outcome (fst (gold_items xs w)).
Proof.
  revert w. induction xs as [|ex xs IH]; intros w; [done|].
  cbn [gold_items].
  apply lib_outcome_bind; [apply lib_outcome_make_doc|]. intros doc w1 _.
  apply lib_outcome_bind; [apply lib_outcome_lib|]. intros gold w2 _.
  apply lib_outcome_bind; [apply IH|]. by intros rest w3 _.
Qed.

Lemma lib_outcome_train_batch items st w :
  items ≠ [] → lib_outcome (fst (train_batch items st w)).
Proof.
  intros Hne. unfold train_batch. destruct items as [|it items]; [done|].
  unfold nlp_update. apply lib_outcome_bind; [done|]. intros nlp w1 _.
  apply lib_outcome_bind; [apply lib_outcome_lib|]. by intros r w2 _.
Qed.

(** No batch is empty, so [zip] always has a first pair. *)
Lemma lib_outcome_train_batches bs st w :
  Forall (λ b : list Example, 1 ≤ length b) bs →
  lib_outcome (fst (train_batches bs st w)).
Proof.
  intros Hbs. revert st w. induction Hbs as [|b bs Hb _ IH]; intros st w; [done|].
  cbn [train_batches].
  apply lib_outcome_bind; [apply lib_outcome_gold_items|]. intros items w1 E.
  apply gold_items_length in E.
  apply lib_outcome_bind; [|intros st1 w2 _; apply IH].
  apply lib_outcome_train_batch. intros ->. simpl in E. lia.
Qed.

Lemma lib_outcome_train_epoch optimizer w :
  randbelow_bounded (L := L) → lib_outcome (fst (train_epoch optimizer w)).
Proof.
  intros Hr. rewrite train_epoch_unrolled. unfold epoch_unrolled.
  destruct (random_shuffle_returns w Hr) as [w1 E].
  rewrite (bind_run _ _ _ _ _ E), bind_get_train_data. cbv beta.
  apply lib_outcome_bind; [|by intros st w2 _].
  apply lib_outcome_train_batches.
  destruct (chunks_cut (length (w_train_data w1)) 3 (w_train_data w1))
    as (_ & Hs & _); [lia..|].
  eapply Forall_impl; [exact Hs|]. intros b. simpl. lia.
Qed.

Lemma lib_outcome_for_range {S} n (body : S → M L S) s w :
  (∀ s w, lib_outcome (fst (body s w))) →
  lib_outcome (fst (for_range n body s w)).
Proof.
  intros Hb. revert s w. induction n as [|n IH]; intros s w; [done|].
  cbn [for_range]. apply lib_outcome_bind; [apply Hb|]. intros s' w1 _. apply IH.
Qed.

Lemma lib_outcome_save_model (output_dir : pyarg L) w :
  (∀ s, output_dir = PStr s → s = "") →
  lib_outcome (fst (save_model output_dir w)).
Proof.
  intros Hs. unfold save_model. destruct output_dir as [|s|p]; [done| |].
  - by rewrite (Hs s eq_refl).
  - cbn [truthy negb].
    apply lib_outcome_bind; [done|]. intros fs w1 _.
    apply lib_outcome_bind; [apply lib_outcome_lib|]. intros b w2 _.
    apply lib_outcome_bind.
    + destruct b; [done|]. cbn [negb].
      apply lib_outcome_bind; [done|]. intros fs0 w3 _.
      apply lib_outcome_bind; [apply lib_outcome_lib|]. by intros fs1 w4 _.
    + intros _ w3 _.
      apply lib_outcome_bind; [done|]. intros nlp w4 _.
      apply lib_outcome_bind; [done|]. intros fs0 w5 _.
      apply lib_outcome_bind; [apply lib_outcome_lib|]. by intros fs1 w6 _.
Qed.

Lemma lib_outcome_train_ner (output_dir : pyarg L) w :
  randbelow_bounded (L := L) →
  (∀ s, output_dir = PStr s → s = "") →
  lib_outcome (fst (train_ner output_dir w)).
Proof.
  intros Hr Hs.
  destruct (begin_training L (w_nlp w)) as [[optimizer nlp1]|e] eqn:E;
    [|by rewrite (train_ner_aborts _ _ _ E)].
  rewrite (train_ner_begins _ _ _ _ E).
  apply lib_outcome_bind.
  - apply lib_outcome_for_range. intros s w1. by apply lib_outcome_train_epoch.
  - intros _ w1 _. by apply lib_outcome_save_model.
Qed.

Lemma lib_outcome_print_ents doc w : lib_outcome (fst (print_ents doc w)).
Proof. by rewrite print_ents_run. Qed.

Lemma lib_outcome_test_entity output_directory w :
  lib_outcome (fst (test_entity output_directory w)).
Proof.
  unfold test_entity.
  apply lib_outcome_bind; [done|]. intros _ w1 _.
  apply lib_outcome_bind; [done|]. intros nlp w2 _.
  apply lib_outcome_bind; [apply lib_outcome_lib|]. intros r w3 _.
  apply lib_outcome_bind; [done|]. intros _ w4 _.
  apply lib_outcome_bind; [apply lib_outcome_print_ents|]. intros _ w5 _.
  destruct output_directory as [p|]; [|done].
  apply lib_outcome_bind; [done|]. intros _ w6 _.
  apply lib_outcome_bind; [done|]. intros fs w7 _.
  apply lib_outcome_bind; [apply lib_outcome_lib|]. intros nlp2 w8 _.
  apply lib_outcome_bind; [apply lib_outcome_lib|]. intros r2 w9 _.
  apply lib_outcome_print_ents.
Qed.

(** X11.  The script raises nothing of its own.  With [randbelow] answering
    within its bound, [main] ends by returning or with an exception raised
    inside a library call, and so does [train_ner] unless its output
    directory is a non-empty string: the shuffle stays within the list, no
    batch is empty when it is unzipped, and the pipeline has a last
    component when the label is added. *)
Theorem only_library_errors :
  randbelow_bounded (L := L) →
  (∀ model_name output_directory w,
     lib_outcome (fst (main model_name output_directory w))) ∧
  (∀ (output_dir : pyarg L) w,
     (∀ s, output_dir = PStr s → s = "") →
     lib_outcome (fst (train_ner output_dir w))).
Proof.
  intros Hr. split; [|intros output_dir w Hs; by apply lib_outcome_train_ner].
  intros model_name output_directory w.
  destruct (main_setup_cases model_name output_directory w)
    as [(nlp0 & tve & ner & ner' & H1 & H2 & H3 & H4)|(e & evs & -> & _)]; [|done].
  rewrite (main_begins _ _ _ _ _ _ _ H1 H2 H3 H4).
  apply lib_outcome_bind; [|intros _ w1 _; apply lib_outcome_test_entity].
  apply lib_outcome_train_ner; [done|]. by destruct output_directory.
Qed.

(** *** The prediction after the training *)

(** X12.  A run of [main] that returns has, after [train_ner], printed the
    heading, run the pipeline on the test sentence and printed one line for
    each entity found.  The pipeline it ran is the one the training left,
    with or without an output directory: saving does not change it, and the
    reloaded one is run only afterwards. *)
Theorem main_tests_trained_pipeline model_name output_directory w w' :
  main model_name output_directory w = (Ok tt, w') →
  ∃ (nlp0 : Nlp L) (tve ner' : Component L) (doc : Doc L) (nlp3 : Nlp L)
    (post : list (Event L)),
    let entry := train_entry w model_name nlp0 tve ner' in
    call L (w_nlp (snd (train_ner PNone entry))) "Do you like horses?"
    = Returns (doc, nlp3) ∧
    w_log w'
    = w_log (snd (train_ner (as_pyarg output_directory) entry))
      ++ [EPrint "Ents in 'Do you like horses?':";
          ECall Trained "Do you like horses?"]
      ++ map ent_line (ents L doc) ++ post ∧
    (output_directory = None → post = []).
Proof.
  intros H.
  apply main_ok_inv in H
    as (nlp0 & tve & ner & ner' & w2 & _ & _ & _ & _ & Htrain & Htest).
  apply test_entity_ok in Htest as (doc & nlp3 & Hcall & _ & Hlog).
  assert (Hnlp : w_nlp w2
                 = w_nlp (snd (train_ner PNone (train_entry w model_name nlp0 tve ner')))).
  { rewrite train_ner_split in Htrain.
    apply bind_ok_inv in Htrain as ([] & w1 & -> & Hsave).
    by apply save_model_events in Hsave as (evs & _ & _ & _ & _ & ->). }
  destruct output_directory as [d|]; cbn [fmap option_fmap option_map] in Hlog.
  - destruct Hlog as (nlp2 & doc2 & nlp2' & _ & _ & Hlog).
    exists nlp0, tve, ner', doc, nlp3. eexists. cbv zeta.
    rewrite Htrain, <- Hnlp. cbn [snd].
    split; [done|].
    split; [rewrite Hlog, <- !app_assoc; reflexivity | done].
  - exists nlp0, tve, ner', doc, nlp3, []. cbv zeta.
    rewrite Htrain, <- Hnlp. cbn [snd].
    split; [done|]. split; [|done]. by rewrite app_nil_r.
Qed.

(** *** The seed *)

(** X13.  [random.seed(0)] makes [train_ner] forget the state the generator was
    in: the outcome and everything the run leaves, the generator included,
    are the same from any state of it. *)
Theorem train_ner_forgets_generator_state output_dir w r :
  train_ner output_dir
    (MkWorld r (w_nlp w) (w_train_data w) (w_fs w) (w_log w))
  = train_ner output_dir w.
Proof. apply train_ner_reseed. Qed.

End Further.

(** ** The entry point *)

Section EntryPoint.
Context {L : Library}.
Implicit Types w : World L.




End EntryPoint.

(** ** Every library exception reaches the caller *)

Section Tracked.
Context {L : Library}.
Implicit Types w h : World L.
















End Tracked.



Section TrackedScript.
Context {L : Library}.
Implicit Types w h : World L.
























End TrackedScript.

Section NothingIsCaught.
Context {L : Library}.
Implicit Types w h : World L.



End NothingIsCaught.

(** ** The theorems at work on the small library *)

Lemma toy_keeps_meta_name fail_at : keeps_meta_name (L := Toy.lib fail_at).
Proof.
  split.
  - intros nlp raw_text doc nlp' H. by inversion H.
  - intros nlp docs golds losses sgd us drop losses' sgd' nlp' H.
    simpl in H. unfold Toy.toy_update in H. case_bool_decide; by inversion H.
Qed.

(** A failing [update] ends [main] with its exception. *)
Example update_failure_propagates :
  lib_error (fst (main "en" None (Toy.world0 (Some 5)))) = Some "update failed".
Proof. vm_compute. reflexivity. Qed.

Lemma train_ner_fifty_epochs_witness :
  train_ner (PPath (Toy.out None)) (Toy.trained_world None)
  = (Ok tt, snd (train_ner (PPath (Toy.out None)) (Toy.trained_world None))) ∧
  ∃ (epochs : list epoch_view) (rest : list (Event (Toy.lib None))),
    w_log (snd (train_ner (PPath (Toy.out None)) (Toy.trained_world None)))
    = w_log (Toy.trained_world None)
      ++ [ESeed 0; EBeginTraining (w_nlp (Toy.trained_world None))]
      ++ flat_map epoch_events epochs ++ rest ∧
    length epochs = 50 ∧
    Forall (epoch_shape (w_train_data (Toy.trained_world None))) epochs ∧
    Forall (λ e, Forall (λ b, length (bv_items b) = 3) (ev_batches e)) epochs ∧
    Forall (λ ev, training_event ev = false) rest.
Proof.
  assert (H : train_ner (PPath (Toy.out None)) (Toy.trained_world None)
              = (Ok tt, snd (train_ner (PPath (Toy.out None))
                               (Toy.trained_world None))))
    by (apply run_returned; vm_compute; reflexivity).
  split; [exact H|].
  destruct (train_ner_fifty_epochs (PPath (Toy.out None)) (Toy.trained_world None)
              _ H) as (epochs & rest & H1 & H2 & H3 & H4 & H5).
  exists epochs, rest.
  exact (conj H1 (conj H2 (conj H3 (conj (H4 eq_refl) H5)))).
Defined.

Lemma main_builds_pipeline_witness :
  ∃ post,
    events_of (main "en" (Some "out")) (Toy.world0 None)
    = [EPrint ("Creating initial model " +:+ "en"); EBlank "en";
       ETokenVectorEncoder; ENeuralEntityRecognizer; EAddLabel "ANIMAL";
       ESeed 0;
       EBeginTraining
         (MkLanguage (tt : Vocab (Toy.lib None))
            ([] ++ [("tok2vec", []); ("ner", ["ANIMAL"])])
            {[ "lang" := "en" ]})] ++ post ∧
    last ([] ++ [("tok2vec", [] : list string); ("ner", ["ANIMAL"])])
    = Some ("ner", ["ANIMAL"]) ∧
    Forall (λ ev, ∀ label, ev ≠ EAddLabel label) post.
Proof.
  exact (main_builds_pipeline (L := Toy.lib None) "en" (Some "out")
           (Toy.world0 None)
           (MkLanguage tt [] {[ "lang" := "en" ]})
           ("tok2vec", []) ("ner", []) ("ner", ["ANIMAL"])
           eq_refl eq_refl eq_refl eq_refl).
Defined.

Lemma saving_is_optional_witness :
  (train_ner PNone (Toy.trained_world None) = train_ner PNone (Toy.trained_world None) ∧
   w_fs (snd (train_ner PNone (Toy.trained_world None)))
   = w_fs (Toy.trained_world None) ∧
   Forall (λ ev, event_path ev = None)
     (events_of (train_ner PNone) (Toy.trained_world None))) ∧
  ∃ (b : bool) fs1,
    w_fs (snd (train_ner PNone (Toy.trained_world None)))
    = w_fs (Toy.trained_world None) ∧
    path_exists (Toy.lib None) (Toy.out None) (w_fs (Toy.trained_world None))
    = Returns b ∧
    (if b then fs1 = w_fs (Toy.trained_world None)
     else path_mkdir (Toy.lib None) (Toy.out None) (w_fs (Toy.trained_world None))
          = Returns fs1) ∧
    to_disk (Toy.lib None) (w_nlp (snd (train_ner PNone (Toy.trained_world None))))
      (Toy.out None) fs1
    = Returns (w_fs (snd (train_ner (PPath (Toy.out None)) (Toy.trained_world None)))) ∧
    w_log (snd (train_ner (PPath (Toy.out None)) (Toy.trained_world None)))
    = w_log (snd (train_ner PNone (Toy.trained_world None)))
      ++ EExists (Toy.out None) :: (if b then [] else [EMkdir (Toy.out None)])
      ++ [EToDisk (Toy.out None)].
Proof.
  split.
  - exact (proj1 (saving_is_optional PNone (Toy.trained_world None)) eq_refl).
  - assert (H : train_ner (PPath (Toy.out None)) (Toy.trained_world None)
                = (Ok tt, snd (train_ner (PPath (Toy.out None))
                                 (Toy.trained_world None))))
      by (apply run_returned; vm_compute; reflexivity).
    exact (proj2 (saving_is_optional (PPath (Toy.out None)) (Toy.trained_world None))
             (Toy.out None) _ eq_refl H).
Defined.

Lemma training_schedule_deterministic_witness :
  head (events_of (train_ner PNone) (Toy.trained_world None)) = Some (ESeed 0) ∧
  orders (events_of (train_ner PNone) (Toy.trained_world None))
  = orders (events_of (train_ner (PPath (Toy.out None))) (Toy.other_world None)) ∧
  schedule (events_of (train_ner PNone) (Toy.trained_world None))
  = schedule (events_of (train_ner (PPath (Toy.out None))) (Toy.other_world None)).
Proof.
  destruct (training_schedule_deterministic PNone (PPath (Toy.out None))
              (Toy.trained_world None) (Toy.other_world None) eq_refl)
    as (H1 & H2 & H3).
  split; [exact H1|]. split; [|exact (H3 eq_refl)].
  apply H2; vm_compute; reflexivity.
Defined.

Lemma name_is_set_witness :
  meta (w_nlp (loop_entry (Toy.trained_world None)
                 (w_nlp (Toy.trained_world None)))) !! "name"
  = Some "en_ent_animal" ∧
  train_ner (PPath (Toy.out None)) (Toy.trained_world None)
  = bind (for_range 50 train_epoch (0 : Optimizer (Toy.lib None)))
      (λ _, save_model (PPath (Toy.out None)))
      (loop_entry (Toy.trained_world None) (w_nlp (Toy.trained_world None))) ∧
  meta (w_nlp (snd (train_ner (PPath (Toy.out None)) (Toy.trained_world None))))
    !! "name" = Some "en_ent_animal".
Proof.
  destruct (name_is_set (PPath (Toy.out None)) (Toy.trained_world None)
              (0 : Optimizer (Toy.lib None)) (w_nlp (Toy.trained_world None))
              eq_refl) as (H1 & H2 & H3).
  exact (conj H1 (conj H2 (H3 (toy_keeps_meta_name None)))).
Defined.

Lemma reload_iff_output_directory_witness :
  Forall (λ ev, reload_event ev = false)
    (events_of (main "en" None) (Toy.world0 None)) ∧
  ∃ pre nlp2 doc2 nlp2',
    load (Toy.lib None) (mkPath (Toy.lib None) "out")
      (w_fs (snd (main "en" (Some "out") (Toy.world0 None)))) = Returns nlp2 ∧
    call (Toy.lib None) nlp2 "Do you like horses?" = Returns (doc2, nlp2') ∧
    events_of (main "en" (Some "out")) (Toy.world0 None)
    = pre ++ [EPrint ("Loading from "
                      +:+ str_path (Toy.lib None) (mkPath (Toy.lib None) "out"));
              ELoad (mkPath (Toy.lib None) "out");
              ECall Reloaded "Do you like horses?"]
          ++ map ent_line (ents (Toy.lib None) doc2) ∧
    EToDisk (mkPath (Toy.lib None) "out") ∈ pre ∧
    Forall (λ ev, reload_event ev = false) pre.
Proof.
  split.
  - exact (proj1 (reload_iff_output_directory "en" None (Toy.world0 None)) eq_refl).
  - assert (H : main "en" (Some "out") (Toy.world0 None)
                = (Ok tt, snd (main "en" (Some "out") (Toy.world0 None))))
      by (apply run_returned; vm_compute; reflexivity).
    exact (proj2 (reload_iff_output_directory "en" (Some "out") (Toy.world0 None))
             "out" _ eq_refl H).
Defined.




(** ** The further properties at work on the small library *)

Lemma toy_randbelow_bounded fail_at : randbelow_bounded (L := Toy.lib fail_at).
Proof.
  intros r n Hn. simpl.
  pose proof (N.mod_upper_bound (Toy.toy_next r) (N.of_nat n)). lia.
Qed.

(** An event that a test singles out is in a list the test finds it in. *)
Lemma elem_of_existsb {A} (f : A → bool) (l : list A) x :
  (∀ a, f a = true → a = x) → existsb f l = true → x ∈ l.
Proof.
  intros Hf H. apply existsb_exists in H as (a & Hin & Ha).
  apply Hf in Ha as ->. by apply list_elem_of_In.
Qed.

Lemma train_ner_empty_data_witness :
  train_ner (PPath (Toy.out None)) (Toy.world0 None)
  = save_model (PPath (Toy.out None))
      (MkWorld (seed (Toy.lib None) 0)
         (w_nlp (loop_entry (Toy.world0 None) (w_nlp (Toy.world0 None))))
         [] (w_fs (Toy.world0 None))
         (w_log (Toy.world0 None)
          ++ [ESeed 0; EBeginTraining (w_nlp (Toy.world0 None))]
          ++ concat (replicate 50 [EShuffle []; EPrintLosses ∅]))).
Proof.
  exact (train_ner_empty_data (PPath (Toy.out None)) (Toy.world0 None)
           (0 : Optimizer (Toy.lib None)) (w_nlp (Toy.world0 None))
           eq_refl eq_refl).
Defined.

Lemma failed_training_saves_nothing_witness :
  train_ner (PPath (Toy.out (Some 5))) (Toy.trained_world (Some 5))
  = train_ner PNone (Toy.trained_world (Some 5)) ∧
  w_fs (snd (train_ner (PPath (Toy.out (Some 5))) (Toy.trained_world (Some 5))))
  = w_fs (Toy.trained_world (Some 5)) ∧
  Forall (λ ev, event_path ev = None)
    (events_of (train_ner (PPath (Toy.out (Some 5)))) (Toy.trained_world (Some 5))).
Proof.
  apply (failed_training_saves_nothing (PPath (Toy.out (Some 5)))
           (Toy.trained_world (Some 5))).
  vm_compute. reflexivity.
Defined.

Lemma train_ner_str_output_dir_witness :
  fst (train_ner (PStr "out") (Toy.trained_world None))
  = Raise (AttributeError "exists").
Proof.
  rewrite (train_ner_str_output_dir "out" (Toy.trained_world None));
    [reflexivity | discriminate | vm_compute; reflexivity].
Defined.

Lemma mkdir_only_when_absent_witness :
  path_exists (Toy.lib None) (Toy.out None) (w_fs (Toy.trained_world None))
  = Returns false ∧
  (path_exists (Toy.lib None) (Toy.out None) (w_fs (Toy.trained_world None))
   = Returns true ∨
   path_exists (Toy.lib None) (Toy.out None) (w_fs (Toy.trained_world None))
   = Returns false ∧
   ∃ fs1, path_mkdir (Toy.lib None) (Toy.out None) (w_fs (Toy.trained_world None))
          = Returns fs1).
Proof.
  destruct (mkdir_only_when_absent (PPath (Toy.out None)) (Toy.trained_world None)
              (Toy.out None)) as [H1 H2].
  split.
  - apply H1.
    apply (elem_of_existsb
             (λ ev : Event (Toy.lib None),
                match ev with EMkdir p => String.eqb p "out" | _ => false end)).
    + intros ev Hev. destruct ev; try discriminate Hev.
      apply String.eqb_eq in Hev. by rewrite Hev.
    + vm_compute. reflexivity.
  - apply H2.
    apply (elem_of_existsb
             (λ ev : Event (Toy.lib None),
                match ev with EToDisk p => String.eqb p "out" | _ => false end)).
    + intros ev Hev. destruct ev; try discriminate Hev.
      apply String.eqb_eq in Hev. by rewrite Hev.
    + vm_compute. reflexivity.
Defined.

Lemma get_gold_parses_yields_all_witness :
  ∃ items w',
    take_items 7 (get_gold_parses nlp_make_doc) GStart (Toy.trained_world None)
    = (Ok (items, GDone), w') ∧
    w_train_data w' ≡ₚ main_train_data ∧
    length items = 6.
Proof.
  destruct (take_items 7 (get_gold_parses nlp_make_doc) GStart
              (Toy.trained_world None)) as [[[items frame]|e|] w'] eqn:E.
  - destruct (get_gold_parses_yields_all 7 (Toy.trained_world None)
                items frame w') as (-> & H2 & H3 & _);
      [simpl; lia | exact E |].
    exists items, w'. exact (conj eq_refl (conj H2 H3)).
  - apply (f_equal (λ r, returned (fst r))) in E. vm_compute in E. discriminate E.
  - apply (f_equal (λ r, returned (fst r))) in E. vm_compute in E. discriminate E.
Defined.

Lemma optimizer_and_losses_handed_on_witness :
  ∃ (eps : list epoch_view) (rest : list (Event (Toy.lib None)))
    (sgd' : Optimizer (Toy.lib None)),
    w_log (snd (train_ner (PPath (Toy.out None)) (Toy.trained_world None)))
    = w_log (Toy.trained_world None)
      ++ [ESeed 0; EBeginTraining (w_nlp (Toy.trained_world None))]
      ++ flat_map epoch_events eps ++ rest ∧
    length eps = 50 ∧
    epochs_chained (0 : Optimizer (Toy.lib None)) eps sgd' ∧
    Forall (λ ev, training_event ev = false) rest.
Proof.
  apply (optimizer_and_losses_handed_on (PPath (Toy.out None))
           (Toy.trained_world None) _ (0 : Optimizer (Toy.lib None))
           (w_nlp (Toy.trained_world None)) eq_refl).
  apply run_returned. vm_compute. reflexivity.
Defined.

Lemma list_left_in_last_order_witness :
  ∃ (eps : list epoch_view) (rest : list (Event (Toy.lib None))),
    w_log (snd (train_ner PNone (Toy.trained_world None)))
    = w_log (Toy.trained_world None)
      ++ [ESeed 0; EBeginTraining (w_nlp (Toy.trained_world None))]
      ++ flat_map epoch_events eps ++ rest ∧
    Forall (λ ev, training_event ev = false) rest ∧
    last (map ev_order eps)
    = Some (w_train_data (snd (train_ner PNone (Toy.trained_world None)))).
Proof.
  apply (list_left_in_last_order PNone (Toy.trained_world None)).
  apply run_returned. vm_compute. reflexivity.
Defined.

Lemma train_ner_call_counts_witness :
  count_events shuffle_event
    (events_of (train_ner PNone) (Toy.trained_world None)) = 50 ∧
  count_events make_doc_event
    (events_of (train_ner PNone) (Toy.trained_world None)) = 300 ∧
  count_events gold_parse_event
    (events_of (train_ner PNone) (Toy.trained_world None)) = 300 ∧
  count_events update_event
    (events_of (train_ner PNone) (Toy.trained_world None)) = 100.
Proof.
  apply (train_ner_call_counts PNone (Toy.trained_world None)
           (snd (train_ner PNone (Toy.trained_world None)))).
  apply run_returned. vm_compute. reflexivity.
Defined.

Lemma main_call_counts_witness :
  count_events shuffle_event
    (events_of (main "en" (Some "out")) (Toy.world0 None)) = 50 ∧
  count_events make_doc_event
    (events_of (main "en" (Some "out")) (Toy.world0 None)) = 300 ∧
  count_events gold_parse_event
    (events_of (main "en" (Some "out")) (Toy.world0 None)) = 300 ∧
  count_events update_event
    (events_of (main "en" (Some "out")) (Toy.world0 None)) = 100.
Proof.
  apply (main_call_counts "en" (Some "out") (Toy.world0 None)
           (snd (main "en" (Some "out") (Toy.world0 None)))).
  apply run_returned. vm_compute. reflexivity.
Defined.

Lemma training_needs_setup_witness :
  ∃ nlp0 tve ner ner',
    blank (Toy.lib None) "en" = Returns nlp0 ∧
    TokenVectorEncoder (Toy.lib None) (vocab nlp0) = Returns tve ∧
    NeuralEntityRecognizer (Toy.lib None) (vocab nlp0) = Returns ner ∧
    add_label (Toy.lib None) ner "ANIMAL" = Returns ner'.
Proof.
  apply (training_needs_setup "en" None (Toy.world0 None) (ESeed 0));
    [|reflexivity].
  apply (elem_of_existsb
           (λ ev : Event (Toy.lib None),
              match ev with ESeed a => Z.eqb a 0 | _ => false end)).
  - intros ev Hev. destruct ev; try discriminate Hev.
    apply Z.eqb_eq in Hev. by rewrite Hev.
  - vm_compute. reflexivity.
Defined.

Lemma only_library_errors_witness :
  lib_outcome (fst (main "en" None (Toy.world0 (Some 5)))) ∧
  lib_outcome (fst (train_ner (PPath (Toy.out None)) (Toy.trained_world None))).
Proof.
  split.
  - apply (proj1 (only_library_errors (toy_randbelow_bounded (Some 5)))).
  - apply (proj2 (only_library_errors (toy_randbelow_bounded None))).
    intros s. discriminate.
Defined.

Lemma main_tests_trained_pipeline_witness :
  ∃ (nlp0 : Nlp (Toy.lib None)) (tve ner' : Component (Toy.lib None))
    (doc : Doc (Toy.lib None)) (nlp3 : Nlp (Toy.lib None))
    (post : list (Event (Toy.lib None))),
    let entry := train_entry (Toy.world0 None) "en" nlp0 tve ner' in
    call (Toy.lib None) (w_nlp (snd (train_ner PNone entry))) "Do you like horses?"
    = Returns (doc, nlp3) ∧
    w_log (snd (main "en" None (Toy.world0 None)))
    = w_log (snd (train_ner (as_pyarg None) entry))
      ++ [EPrint "Ents in 'Do you like horses?':";
          ECall Trained "Do you like horses?"]
      ++ map ent_line (ents (Toy.lib None) doc) ++ post ∧
    ((None : option string) = None → post = []).
Proof.
  apply (main_tests_trained_pipeline "en" None (Toy.world0 None)).
  apply run_returned. vm_compute. reflexivity.
Defined.
